(** * print_ip: dotted "IP address" rendering of integers, strings,
      containers and tuples

    A shallow embedding of [src/source/print_ip.cpp].  The program is a set of
    four [print_ip] overloads chosen at compile time with [std::enable_if];
    each writes one line to [std::cout].

    - Module [Cpp] holds what the program takes from the language and its
      standard library: the integral types with [sizeof], [std::make_unsigned]
      and [static_cast], and the stream insertions [operator<<].
    - Module [PrintIp] holds the program: one definition per function or trait
      of the source file, with the same name.

    - Module [Formatted] holds the program once more, over a stream that
      carries its format state besides the text.

    [std::cout] is the state the program threads: an [ostream] is the text
    written so far and every [<<] extends it. *)

From Stdlib Require Import ZArith List String Ascii Lia Bool Arith DecimalString.
From Stdlib Require DecimalZ.
Import ListNotations.
Local Open Scope string_scope.

(* ================================================================== *)
(** ** The C++ side: types, conversions, stream insertion              *)
(* ================================================================== *)

Module Cpp.

(** The integral types of C++17 ([std::is_integral] holds of exactly these,
    cv-qualification aside). *)
Inductive integral : Set :=
  | Bool
  | Char | SignedChar | UnsignedChar
  | WChar | Char16 | Char32
  | Short | UnsignedShort
  | Int | UnsignedInt
  | Long | UnsignedLong
  | LongLong | UnsignedLongLong.

Definition integral_eq_dec (a b : integral) : {a = b} + {a <> b}.
Proof. decide equality. Defined.

(** [sizeof], in bytes, on the LP64 data model (x86-64 Linux), where
    [int8_t], [int16_t], [int32_t] and [int64_t] are [signed char], [short],
    [int] and [long]. *)
Definition sizeof (T : integral) : nat :=
  match T with
  | Bool | Char | SignedChar | UnsignedChar => 1
  | Char16 | Short | UnsignedShort => 2
  | WChar | Char32 | Int | UnsignedInt => 4
  | Long | UnsignedLong | LongLong | UnsignedLongLong => 8
  end.

(** [std::is_signed]; plain [char] and [wchar_t] are signed on this platform. *)
Definition is_signed (T : integral) : bool :=
  match T with
  | Char | SignedChar | WChar | Short | Int | Long | LongLong => true
  | _ => false
  end.

Definition int8_t := SignedChar.
Definition int16_t := Short.
Definition int32_t := Int.
Definition int64_t := Long.
Definition uint8_t := UnsignedChar.
Definition uint16_t := UnsignedShort.

(** [std::make_unsigned<T>::type]: the unsigned type of the same size.  The
    standard excludes [bool] ([meta.trans.sign]: "T shall be an integral or
    enumeration type other than cv bool"); the libraries leave
    [make_unsigned<bool>] without a [type] member, so naming it does not
    compile.  [None] stands for that. *)
Definition make_unsigned (T : integral) : option integral :=
  match T with
  | Bool => None
  | Char | SignedChar | UnsignedChar => Some UnsignedChar
  | Char16 | Short | UnsignedShort => Some UnsignedShort
  | WChar | Char32 | Int | UnsignedInt => Some UnsignedInt
  | Long | UnsignedLong => Some UnsignedLong
  | LongLong | UnsignedLongLong => Some UnsignedLongLong
  end.

(** Number of value bits of [T]. *)
Definition bits (T : integral) : Z := 8 * Z.of_nat (sizeof T).

(** The values a variable of type [T] can hold. *)
Definition in_range (T : integral) (v : Z) : Prop :=
  match T with
  | Bool => 0 <= v <= 1
  | _ => if is_signed T
         then - 2 ^ (bits T - 1) <= v < 2 ^ (bits T - 1)
         else 0 <= v < 2 ^ bits T
  end%Z.

(** [static_cast<T>(v)] between integral types: the value modulo [2^bits],
    read in two's complement when [T] is signed; conversion to [bool] tests
    against zero. *)
Definition static_cast (T : integral) (v : Z) : Z :=
  match T with
  | Bool => if (v =? 0)%Z then 0 else 1
  | _ => let m := (v mod 2 ^ bits T)%Z in
         if is_signed T && (2 ^ (bits T - 1) <=? m)%Z
         then (m - 2 ^ bits T)%Z else m
  end%Z.

(** *** std::ostream *)

(** The characters written to the stream so far. *)
Definition ostream := string.

(** Decimal digits of an integer, with a leading [-] when negative. *)
Definition decimal (v : Z) : string := NilZero.string_of_int (Z.to_int v).

(** The one-character string holding the character with code [v mod 256]. *)
Definition character (v : Z) : string :=
  String (ascii_of_N (Z.to_N (v mod 256))) EmptyString.

(** What [os << x] appends for [x] of integral type [T] and value [v], with
    the stream's default flags: the narrow character types insert the
    character itself, every other integral type inserts the decimal value
    ([bool] as 0 or 1; the wide character types after integral promotion). *)
Definition integral_text (T : integral) (v : Z) : string :=
  match T with
  | Char | SignedChar | UnsignedChar => character v
  | _ => decimal v
  end.

(** [os << s] for a string literal or a [std::string]. *)
Definition insert_string (s : string) (os : ostream) : ostream := os ++ s.

(** [os << x] for [x] of integral type [T]. *)
Definition insert_integral (T : integral) (v : Z) (os : ostream) : ostream :=
  os ++ integral_text T v.

Definition newline : string := String (ascii_of_nat 10) EmptyString.

(** [os << std::endl]: a newline (and a flush, which leaves the text alone). *)
Definition endl (os : ostream) : ostream := os ++ newline.

(** How a call of a function template ends. *)
Inductive outcome : Type :=
  | Printed (cout : ostream)     (** it returns; [cout] is the stream after it *)
  | Undefined                    (** it runs into undefined behaviour *)
  | IllFormed (diagnostic : string).
                                 (** it does not compile: nothing executes *)

End Cpp.

(* ================================================================== *)
(** ** The program                                                     *)
(* ================================================================== *)

Module PrintIp.
Import Cpp.

(** *** print_ip, integral overload (lines 20-46) *)

(** The loop [for (size_t i = size_T-1; i > 0; i--)], entered with [i]:
    each round writes byte [i] of [u_value] and a dot. *)
Fixpoint print_ip_high_bytes (i : nat) (u_value : Z) (cout : ostream) : ostream :=
  match i with
  | O => cout
  | S i' =>
      let h := static_cast uint8_t
                 (Z.shiftr (Z.shiftr u_value 0) (8 * Z.of_nat i)) in
      let cout := insert_integral uint16_t (static_cast uint16_t h) cout in
      let cout := insert_string "." cout in
      print_ip_high_bytes i' u_value cout
  end.

Definition print_ip_integral (T : integral) (value : Z) (cout : ostream)
  : outcome :=
  let size_T := sizeof T in
  match make_unsigned T with
  | None => IllFormed "make_unsigned<bool> has no member type"
  | Some uT =>
      let u_value := static_cast uT value in
      if (size_T =? 1)%nat then
        Printed (endl (insert_integral uint16_t (static_cast uint16_t u_value) cout))
      else
        let cout := print_ip_high_bytes (size_T - 1) u_value cout in
        let l := static_cast uint8_t u_value in
        Printed (endl (insert_integral uint16_t (static_cast uint16_t l) cout))
  end.

(** *** print_ip, string overload (lines 53-58) *)

Definition print_ip_string (value : string) (cout : ostream) : outcome :=
  Printed (endl (insert_string value cout)).

(** *** print_ip, container overload (lines 65-80) *)

Section Container.

(** The element type [T::value_type] and its [operator<<]. *)
Variable V : Type.
Variable insert : V -> ostream -> ostream.

(** A [std::vector<V>] or [std::list<V>] is the list of its elements.  A
    bidirectional iterator into it is a place in that list: the elements
    before it (nearest first) and the elements from it on. *)
Record iterator : Type := Iterator { before : list V; after : list V }.

Definition begin (container : list V) : iterator :=
  Iterator [] container.

Definition end_ (container : list V) : iterator :=
  Iterator (rev container) [].

(** [a != b], for iterators into one container. *)
Definition iterator_neq (a b : iterator) : bool :=
  negb (List.length (before a) =? List.length (before b))%nat.

(** [it--] on an iterator of class type (also on a temporary): the result
    of the expression is a copy of the iterator as it was, and the iterator
    itself moves one place back.  The pair is (result, iterator afterwards).
    Moving back from [begin()] is undefined. *)
Definition post_decrement (it : iterator) : option (iterator * iterator) :=
  match before it with
  | [] => None
  | x :: b => Some (it, Iterator b (x :: after it))
  end.

(** [container.back()]: undefined on an empty container. *)
Definition back (container : list V) : option V :=
  match rev container with
  | [] => None
  | x :: _ => Some x
  end.

(** The loop [for (it = ...; it != back_it; it++) cout << *it << "."],
    entered with [it] at (before, after).  Reading [*it] at [end()] is
    undefined. *)
Fixpoint print_ip_elements (before after : list V) (back_it : iterator)
    (cout : ostream) : outcome :=
  if iterator_neq (Iterator before after) back_it then
    match after with
    | [] => Undefined
    | x :: after' =>
        let cout := insert x cout in
        let cout := insert_string "." cout in
        print_ip_elements (x :: before) after' back_it cout
    end
  else Printed cout.

Definition print_ip_container (container : list V) (cout : ostream)
  : outcome :=
  match post_decrement (end_ container) with
  | None => Undefined
  | Some (back_it, _) =>
      let it := begin container in
      match print_ip_elements (before it) (after it) back_it cout with
      | Printed cout =>
          match back container with
          | None => Undefined
          | Some x => Printed (endl (insert x cout))
          end
      | stopped => stopped
      end
  end.

End Container.

Arguments Iterator {V} _ _.
Arguments before {V} _.
Arguments after {V} _.
Arguments begin {V} _.
Arguments end_ {V} _.
Arguments iterator_neq {V} _ _.
Arguments post_decrement {V} _.
Arguments back {V} _.
Arguments print_ip_elements {V} _ _ _ _ _.
Arguments print_ip_container {V} _ _ _.

(** *** The traits is_tuple and is_same_type (lines 89-132) *)

Section Traits.

(** Types are compared as [std::is_same] does: two types match one
    template parameter when they are the same type. *)
Variable type : Type.
Variable type_eq_dec : forall a b : type, {a = b} + {a <> b}.

(** [is_same_type<std::tuple<Type, Types...>>::value]:
    - [<Type>] is [true_type];
    - [<Type, Type, Types...>] is [is_same_type<std::tuple<Type, Types...>>];
    - [<Type, EnotherType, Types...>] is [false_type]. *)
Fixpoint is_same_type_from (Type_ : type) (Types : list type) : bool :=
  match Types with
  | [] => true
  | EnotherType :: Types' =>
      if type_eq_dec Type_ EnotherType
      then is_same_type_from Type_ Types'
      else false
  end.

(** [is_same_type<std::tuple<Types...>>::value].  The primary template is
    declared and never defined, and no specialization matches
    [std::tuple<>]: the type is incomplete there and has no [value]. *)
Definition is_same_type (Types : list type) : option bool :=
  match Types with
  | [] => None
  | Type_ :: Types' => Some (is_same_type_from Type_ Types')
  end.

End Traits.

Arguments is_same_type_from {type} _ _ _.
Arguments is_same_type {type} _ _.

(** *** Values and their static types *)

(** The element types with an [operator<<]: integral types and
    [std::string]. *)
Inductive elem_type : Set :=
  | EIntegral (T : integral)
  | EString.

Definition elem_type_eq_dec (a b : elem_type) : {a = b} + {a <> b}.
Proof. decide equality. apply integral_eq_dec. Defined.

(** The argument types of the calls of [print_ip]. *)
Inductive type : Set :=
  | Elem (E : elem_type)
  | StdVector (V : elem_type)
  | StdList (V : elem_type)
  | StdTuple (Types : list elem_type).

Inductive value : Set :=
  | VIntegral (T : integral) (v : Z)
  | VString (s : string).

Definition type_of_value (x : value) : elem_type :=
  match x with
  | VIntegral T _ => EIntegral T
  | VString _ => EString
  end.

(** [cout << x]. *)
Definition insert_value (x : value) (cout : ostream) : ostream :=
  match x with
  | VIntegral T v => insert_integral T v cout
  | VString s => insert_string s cout
  end.

(** The text [cout << x] appends. *)
Definition value_text (x : value) : string :=
  match x with
  | VIntegral T v => integral_text T v
  | VString s => s
  end.

Inductive argument : Set :=
  | Plain (x : value)
  | Vector (V : elem_type) (container : list value)
  | List_ (V : elem_type) (container : list value)
  | Tuple (t : list value).

Definition type_of (a : argument) : type :=
  match a with
  | Plain x => Elem (type_of_value x)
  | Vector V _ => StdVector V
  | List_ V _ => StdList V
  | Tuple t => StdTuple (map type_of_value t)
  end.

Definition is_tuple (T : type) : bool :=
  match T with
  | StdTuple _ => true
  | _ => false
  end.

(** *** print_tuple and print_ip, tuple overload (lines 141-163) *)

Definition tuple_size (t : list value) : nat := List.length t.

Definition make_index_sequence (n : nat) : list nat := seq 0 n.

(** The fold [((cout << (index == 0 ? "" : ".") << std::get<index>(t)), ...)]
    over the indices, left to right, then [endl].  [std::get<index>] with
    [index] past the tuple's size does not compile. *)
Fixpoint print_tuple (t : list value) (indices : list nat) (cout : ostream)
  : outcome :=
  match indices with
  | [] => Printed (endl cout)
  | index :: indices' =>
      match nth_error t index with
      | None => IllFormed "tuple index out of range"
      | Some x =>
          let cout := insert_string (if (index =? 0)%nat then "" else ".") cout in
          let cout := insert_value x cout in
          print_tuple t indices' cout
      end
  end.

Definition print_ip_tuple (value : list value) (cout : ostream) : outcome :=
  match is_same_type elem_type_eq_dec (map type_of_value value) with
  | None => IllFormed "incomplete type is_same_type<std::tuple<>>"
  | Some false => IllFormed "Tuple has different types"
  | Some true =>
      print_tuple value (make_index_sequence (tuple_size value)) cout
  end.

(** *** Overload resolution *)

Inductive overload : Set :=
  | IntegralOverload | StringOverload | ContainerOverload | TupleOverload.

Definition overloads : list overload :=
  [IntegralOverload; StringOverload; ContainerOverload; TupleOverload].

(** The [std::enable_if] condition of each overload at argument type [T];
    [false] also where forming the condition fails ([T::value_type] of a type
    that has none), which removes the overload just the same. *)
Definition enabled (o : overload) (T : type) : bool :=
  match o with
  | IntegralOverload =>
      match T with Elem (EIntegral _) => true | _ => false end
  | StringOverload =>
      match T with Elem EString => true | _ => false end
  | ContainerOverload =>
      match T with StdVector _ | StdList _ => true | _ => false end
  | TupleOverload => is_tuple T
  end.

Definition viable (T : type) : list overload :=
  filter (fun o => enabled o T) overloads.

(** The body of overload [o] on argument [a]. *)
Definition call (o : overload) (a : argument) (cout : ostream) : outcome :=
  match o, a with
  | IntegralOverload, Plain (VIntegral T v) => print_ip_integral T v cout
  | StringOverload, Plain (VString s) => print_ip_string s cout
  | ContainerOverload, (Vector _ c | List_ _ c) =>
      print_ip_container insert_value c cout
  | TupleOverload, Tuple t => print_ip_tuple t cout
  | _, _ => IllFormed "no matching function for call to print_ip"
  end.

(** A call [print_ip(a)]: the one viable overload runs. *)
Definition print_ip (a : argument) (cout : ostream) : outcome :=
  match viable (type_of a) with
  | [o] => call o a cout
  | [] => IllFormed "no matching function for call to print_ip"
  | _ => IllFormed "call of overloaded print_ip is ambiguous"
  end.

(** [main]: the eight example calls, in order, from an empty [std::cout]. *)
Definition main_calls : list argument :=
  [ Plain (VIntegral int8_t (-1));
    Plain (VIntegral int16_t 0);
    Plain (VIntegral int32_t 2130706433);
    Plain (VIntegral int64_t 8875824491850138409);
    Plain (VString "Hello, World!");
    Vector (EIntegral Int) (map (VIntegral Int) [100; 200; 300; 400]%Z);
    List_ (EIntegral Short) (map (VIntegral Short) [400; 300; 200; 100]%Z);
    Tuple (map (VIntegral Int) [123; 456; 789; 0]%Z) ].

Fixpoint run (calls : list argument) (cout : ostream) : outcome :=
  match calls with
  | [] => Printed cout
  | a :: calls' =>
      match print_ip a cout with
      | Printed cout => run calls' cout
      | stopped => stopped
      end
  end.

Definition main : outcome := run main_calls "".

End PrintIp.

Import Cpp PrintIp.

(* ================================================================== *)
(** ** What the specification says a call writes                       *)
(* ================================================================== *)

Module Spec.

(** Components joined with dots. *)
Definition dotted (components : list string) : string :=
  String.concat "." components.

(** "Reinterpret the bit pattern as unsigned of the same width": a negative
    value of a [bits]-bit signed type reads as that value plus [2^bits]. *)
Definition reinterpret_unsigned (T : integral) (v : Z) : Z :=
  if (v <? 0)%Z then (v + 2 ^ bits T)%Z else v.

(** "Split into 8-bit groups from most-significant to least-significant
    byte": the [width] bytes of [u], byte [width-1] first. *)
Fixpoint byte_groups (width : nat) (u : Z) : list Z :=
  match width with
  | O => []
  | S k => ((u / 2 ^ (8 * Z.of_nat k)) mod 2 ^ 8)%Z :: byte_groups k u
  end.

(** The integer rule: each group as its decimal value, joined with dots. *)
Definition format_integer (T : integral) (v : Z) : string :=
  dotted (map decimal (byte_groups (sizeof T) (reinterpret_unsigned T v))).

(** The sequence and tuple rules: each element's text, in order, joined
    with dots. *)
Definition format_elements (elements : list value) : string :=
  dotted (map value_text elements).

(** "All elements share one static type." *)
Definition homogeneous (t : list value) : Prop :=
  forall x y, In x t -> In y t -> type_of_value x = type_of_value y.

(** [format(a) = text]: whatever [std::cout] holds already, the call
    [print_ip(a)] returns and has written the line [text], ended by
    [std::endl]. *)
Definition prints_line (a : argument) (text : string) : Prop :=
  forall cout : ostream, print_ip a cout = Printed (cout ++ text ++ newline).

(** The call is turned down by the compiler. *)
Definition rejected (a : argument) (diagnostic : string) : Prop :=
  forall cout : ostream, print_ip a cout = IllFormed diagnostic.

End Spec.

Import Spec.

(* ================================================================== *)
(** ** Texts used in the proofs                                        *)
(* ================================================================== *)

(** Every element's text followed by a dot: what the container loop
    writes. *)
Definition each_with_dot {V : Type} (text : V -> string) (l : list V) : string :=
  String.concat "" (map (fun x => text x ++ ".") l).

(** What the fold of [print_tuple] writes from index [k] on. *)
Fixpoint tuple_text (k : nat) (t : list value) : string :=
  match t with
  | [] => ""
  | x :: t' =>
      (if (k =? 0)%nat then "" else ".") ++ value_text x ++ tuple_text (S k) t'
  end.

(** The types of a pack are all one type. *)
Definition all_same {type : Type} (Types : list type) : Prop :=
  forall a b, In a Types -> In b Types -> a = b.

(** No character of [s] is the dot. *)
Fixpoint dot_free (s : string) : bool :=
  match s with
  | EmptyString => true
  | String c s' => negb (Ascii.eqb c ".") && dot_free s'
  end.

(** The number of dots in [s]. *)
Fixpoint count_dots (s : string) : nat :=
  match s with
  | EmptyString => 0
  | String c s' => (if Ascii.eqb c "." then 1 else 0) + count_dots s'
  end.

(** [c] is one of the ten decimal digits. *)
Definition is_digit (c : ascii) : bool :=
  let n := nat_of_ascii c in (48 <=? n)%nat && (n <=? 57)%nat.

(** Every character of [s] is a decimal digit or the dot. *)
Fixpoint digits_and_dots (s : string) : bool :=
  match s with
  | EmptyString => true
  | String c s' => (is_digit c || Ascii.eqb c ".") && digits_and_dots s'
  end.

(** What follows the first component of a dotted text: nothing, or a dot
    and the rest. *)
Definition dotted_rest (components : list string) : string :=
  match components with
  | [] => ""
  | _ :: _ => "." ++ dotted components
  end.

(** The number a list of byte groups stands for, most significant first. *)
Definition groups_value (groups : list Z) : Z :=
  fold_left (fun acc g => acc * 2 ^ 8 + g)%Z groups 0%Z.

(** The calls that compile and run to the end. *)
Definition runs (a : argument) : Prop :=
  match a with
  | Plain (VIntegral T _) => T <> Bool
  | Plain (VString _) => True
  | Vector _ c | List_ _ c => c <> []
  | Tuple t => t <> [] /\ homogeneous t
  end.

(* ================================================================== *)
(** ** The program on a stream with its format state                   *)
(* ================================================================== *)

(** [std::cout] holds more than the characters written: the format flags
    ([dec], [hex], [showbase], ...), the width, the fill character and the
    error state.  Every [<<] reads them, and may change them (the width is
    set back to zero).  Here the program is written once more over such a
    stream.  What a [<<] writes is left to the library [L]: a function of
    the value and of the format state, giving the characters inserted and
    the format state afterwards. *)
Module Formatted.

Record iostream : Type := Iostream {
  fmt : Type;
  (** [os << x] for [x] of an integral type *)
  put_integral : integral -> Z -> fmt -> string * fmt;
  (** [os << s] for a string literal or a [std::string] *)
  put_string : string -> fmt -> string * fmt;
  (** [os << std::endl] *)
  put_endl : fmt -> string * fmt
}.

(** A stream: the characters written so far and the format state. *)
Record stream_of (F : Type) : Type := Stream { written : string; state : F }.

Arguments Stream {F} _ _.
Arguments written {F} _.
Arguments state {F} _.

(** How a call ends, on such a stream. *)
Inductive outcome_of (F : Type) : Type :=
  | Printed (cout : stream_of F)
  | Undefined
  | IllFormed (diagnostic : string).

Arguments Printed {F} _.
Arguments Undefined {F}.
Arguments IllFormed {F} _.

Section Program.

Variable L : iostream.

Definition stream : Type := stream_of (fmt L).
Definition outcome : Type := outcome_of (fmt L).

(** An insertion: the characters go after those written, the format state
    is the one the insertion leaves. *)
Definition insert (put : fmt L -> string * fmt L) (os : stream) : stream :=
  let (text, after_it) := put (state os) in
  Stream (written os ++ text) after_it.

Fixpoint print_ip_high_bytes (i : nat) (u_value : Z) (cout : stream) : stream :=
  match i with
  | O => cout
  | S i' =>
      let h := static_cast uint8_t
                 (Z.shiftr (Z.shiftr u_value 0) (8 * Z.of_nat i)) in
      let cout := insert (put_integral L uint16_t (static_cast uint16_t h)) cout in
      let cout := insert (put_string L ".") cout in
      print_ip_high_bytes i' u_value cout
  end.

Definition print_ip_integral (T : integral) (value : Z) (cout : stream)
  : outcome :=
  let size_T := sizeof T in
  match make_unsigned T with
  | None => IllFormed "make_unsigned<bool> has no member type"
  | Some uT =>
      let u_value := static_cast uT value in
      if (size_T =? 1)%nat then
        Printed (insert (put_endl L)
                   (insert (put_integral L uint16_t
                              (static_cast uint16_t u_value)) cout))
      else
        let cout := print_ip_high_bytes (size_T - 1) u_value cout in
        let l := static_cast uint8_t u_value in
        Printed (insert (put_endl L)
                   (insert (put_integral L uint16_t (static_cast uint16_t l))
                      cout))
  end.

Definition print_ip_string (value : string) (cout : stream) : outcome :=
  Printed (insert (put_endl L) (insert (put_string L value) cout)).

(** [cout << x] for an element. *)
Definition put_value (x : value) : fmt L -> string * fmt L :=
  match x with
  | VIntegral T v => put_integral L T v
  | VString s => put_string L s
  end.

Fixpoint print_ip_elements (seen rest : list value) (back_it : iterator value)
    (cout : stream) : outcome :=
  if iterator_neq (Iterator seen rest) back_it then
    match rest with
    | [] => Undefined
    | x :: rest' =>
        let cout := insert (put_value x) cout in
        let cout := insert (put_string L ".") cout in
        print_ip_elements (x :: seen) rest' back_it cout
    end
  else Printed cout.

Definition print_ip_container (container : list value) (cout : stream)
  : outcome :=
  match post_decrement (end_ container) with
  | None => Undefined
  | Some (back_it, _) =>
      let it := begin container in
      match print_ip_elements (before it) (after it) back_it cout with
      | Printed cout =>
          match back container with
          | None => Undefined
          | Some x => Printed (insert (put_endl L) (insert (put_value x) cout))
          end
      | stopped => stopped
      end
  end.

Fixpoint print_tuple (t : list value) (indices : list nat) (cout : stream)
  : outcome :=
  match indices with
  | [] => Printed (insert (put_endl L) cout)
  | index :: indices' =>
      match nth_error t index with
      | None => IllFormed "tuple index out of range"
      | Some x =>
          let cout :=
            insert (put_string L (if (index =? 0)%nat then "" else ".")) cout in
          let cout := insert (put_value x) cout in
          print_tuple t indices' cout
      end
  end.

Definition print_ip_tuple (value : list value) (cout : stream) : outcome :=
  match is_same_type elem_type_eq_dec (map type_of_value value) with
  | None => IllFormed "incomplete type is_same_type<std::tuple<>>"
  | Some false => IllFormed "Tuple has different types"
  | Some true =>
      print_tuple value (make_index_sequence (tuple_size value)) cout
  end.

Definition call (o : overload) (a : argument) (cout : stream) : outcome :=
  match o, a with
  | IntegralOverload, Plain (VIntegral T v) => print_ip_integral T v cout
  | StringOverload, Plain (VString s) => print_ip_string s cout
  | ContainerOverload, (Vector _ c | List_ _ c) => print_ip_container c cout
  | TupleOverload, Tuple t => print_ip_tuple t cout
  | _, _ => IllFormed "no matching function for call to print_ip"
  end.

Definition print_ip (a : argument) (cout : stream) : outcome :=
  match viable (type_of a) with
  | [o] => call o a cout
  | [] => IllFormed "no matching function for call to print_ip"
  | _ => IllFormed "call of overloaded print_ip is ambiguous"
  end.

End Program.

Arguments insert {L} _ _.

(** [text] put in front of what a stream holds. *)
Definition prepend {F : Type} (text : string) (os : stream_of F) : stream_of F :=
  Stream (text ++ written os) (state os).

Definition prepend_outcome {F : Type} (text : string) (o : outcome_of F)
  : outcome_of F :=
  match o with
  | Printed os => Printed (prepend text os)
  | stopped => stopped
  end.

(** The result of the program of [PrintIp], which knows the text only, seen
    as a result on a stream whose format state is [s]. *)
Definition with_state {F : Type} (s : F) (o : Cpp.outcome) : outcome_of F :=
  match o with
  | Cpp.Printed text => Printed (Stream text s)
  | Cpp.Undefined => Undefined
  | Cpp.IllFormed d => IllFormed d
  end.

(** *** A library: the stream with its base flag *)

(** [std::ios_base::basefield], set by [std::dec], [std::oct], [std::hex]. *)
Inductive basefield : Set := Dec | Oct | Hex.

Definition digit_char (d : N) : ascii :=
  if (d <? 10)%N then ascii_of_N (48 + d) else ascii_of_N (87 + d).

(** The digits of [n] in base [radix], put in front of [acc]. *)
Fixpoint radix_digits (fuel : nat) (radix n : N) (acc : string) : string :=
  match fuel with
  | O => acc
  | S fuel' =>
      let acc := String (digit_char (n mod radix)) acc in
      if (n / radix =? 0)%N then acc
      else radix_digits fuel' radix (n / radix) acc
  end.

Definition radix_text (radix : N) (n : N) : string :=
  radix_digits (S (N.to_nat (N.log2 n))) radix n "".

(** What [os << x] inserts for an integer under each base, the other flags
    at their defaults and the width zero: decimal with its sign; octal and
    hexadecimal (lower case, no prefix) of the value converted to the
    unsigned type of the same size; a narrow character as itself. *)
Definition based_text (b : basefield) (T : integral) (v : Z) : string :=
  match T with
  | Char | SignedChar | UnsignedChar => character v
  | _ =>
      match b with
      | Dec => decimal v
      | Oct => radix_text 8 (Z.to_N (v mod 2 ^ bits T))
      | Hex => radix_text 16 (Z.to_N (v mod 2 ^ bits T))
      end
  end.

(** The stream whose format state is its base flag alone; no insertion
    changes the flag. *)
Definition based_stream : iostream :=
  {| fmt := basefield;
     put_integral := fun T v b => (based_text b T v, b);
     put_string := fun s b => (s, b);
     put_endl := fun b => (newline, b) |}.

End Formatted.

(* ================================================================== *)
(** ** Strings                                                         *)
(* ================================================================== *)

Section StringFacts.

Lemma append_assoc (a b c : string) : (a ++ b) ++ c = a ++ (b ++ c).
Proof.
  induction a as [|ch a IH]; simpl; [reflexivity | now rewrite IH].
Qed.

Lemma append_nil_r (a : string) : a ++ "" = a.
Proof.
  induction a as [|ch a IH]; simpl; [reflexivity | now rewrite IH].
Qed.

Lemma append_inj_l (a b c : string) : a ++ b = a ++ c -> b = c.
Proof.
  induction a as [|ch a IH]; simpl; intros H; [assumption|].
  injection H as H. auto.
Qed.

Lemma dotted_cons (x y : string) (l : list string) :
  dotted (x :: y :: l) = x ++ "." ++ dotted (y :: l).
Proof. reflexivity. Qed.

(** Writing every component with a dot after it and then one more
    component is writing them all dot-separated. *)
Lemma dotted_snoc (l : list string) (z : string) :
  dotted (l ++ [z]) = String.concat "" (map (fun x => x ++ ".") l) ++ z.
Proof.
  induction l as [|x l IH]; [reflexivity|].
  change (dotted ((x :: l) ++ [z])) with (dotted (x :: (l ++ [z]))).
  destruct l as [|y l].
  - simpl. now rewrite append_assoc.
  - change ((y :: l) ++ [z])%list with (y :: (l ++ [z]))%list in *.
    rewrite dotted_cons, IH.
    change (map (fun x0 => x0 ++ ".") (x :: y :: l))
      with ((x ++ ".") :: map (fun x0 => x0 ++ ".") (y :: l)).
    remember (map (fun x0 => x0 ++ ".") (y :: l)) as m eqn:Hm.
    destruct m as [|m0 m]; [discriminate|].
    change (String.concat "" ((x ++ ".") :: m0 :: m))
      with ((x ++ ".") ++ "" ++ String.concat "" (m0 :: m)).
    simpl ("" ++ _). now rewrite !append_assoc.
Qed.

End StringFacts.


(* ================================================================== *)
(** ** The integral overload                                           *)
(* ================================================================== *)

Section IntegralFacts.
Local Open Scope Z_scope.

Lemma bits_sizeof (T : integral) : bits T = 8 * Z.of_nat (sizeof T).
Proof. reflexivity. Qed.

Lemma sizeof_pos (T : integral) : (1 <= sizeof T)%nat.
Proof. destruct T; simpl; lia. Qed.

(** [make_unsigned] answers for every type but [bool], with an unsigned
    type of the same size. *)
Lemma make_unsigned_some (T uT : integral) :
  make_unsigned T = Some uT ->
  T <> Bool /\ uT <> Bool /\ is_signed uT = false /\ sizeof uT = sizeof T.
Proof.
  destruct T; simpl; intros H; try discriminate;
    injection H as <-; repeat split; discriminate.
Qed.

Lemma make_unsigned_defined (T : integral) :
  T <> Bool -> exists uT, make_unsigned T = Some uT.
Proof. destruct T; intros H; try contradiction; simpl; eauto. Qed.

(** Conversion to an unsigned type keeps the value modulo [2^bits]. *)
Lemma static_cast_unsigned (T : integral) (v : Z) :
  T <> Bool -> is_signed T = false -> static_cast T v = v mod 2 ^ bits T.
Proof.
  destruct T; intros HB HS; try contradiction; try discriminate; reflexivity.
Qed.

Lemma static_cast_uint8_t (v : Z) : static_cast uint8_t v = v mod 2 ^ 8.
Proof. reflexivity. Qed.

(** Widening a byte to [uint16_t] keeps it. *)
Lemma static_cast_uint16_t_byte (v : Z) :
  static_cast uint16_t (v mod 2 ^ 8) = v mod 2 ^ 8.
Proof.
  rewrite static_cast_unsigned by (try discriminate; reflexivity).
  apply Z.mod_small.
  assert (0 <= v mod 2 ^ 8 < 2 ^ 8) by (apply Z.mod_pos_bound; lia).
  change (bits uint16_t) with 16. change (2 ^ 8) with 256 in *.
  change (2 ^ 16) with 65536. lia.
Qed.

(** The byte the loop reads at index [i] is group [i] of the value. *)
Lemma shifted_byte (u : Z) (i : nat) :
  static_cast uint8_t (Z.shiftr (Z.shiftr u 0) (8 * Z.of_nat i))
  = (u / 2 ^ (8 * Z.of_nat i)) mod 2 ^ 8.
Proof.
  rewrite static_cast_uint8_t, Z.shiftr_0_r, Z.shiftr_div_pow2 by lia.
  reflexivity.
Qed.

(** The loop from [i] down to 1 followed by the low byte writes the
    [i+1] low groups, dot-separated. *)
Lemma print_ip_high_bytes_text (i : nat) (u : Z) (cout : ostream) :
  (print_ip_high_bytes i u cout ++ decimal (u mod 2 ^ 8))%string
  = (cout ++ dotted (map decimal (byte_groups (S i) u)))%string.
Proof.
  revert cout. induction i as [|i IH]; intros cout.
  - simpl. now rewrite Z.div_1_r.
  - cbn [print_ip_high_bytes]. rewrite IH.
    rewrite shifted_byte, static_cast_uint16_t_byte.
    unfold insert_string, insert_integral.
    change (integral_text uint16_t) with decimal.
    change (byte_groups (S (S i)) u)
      with (((u / 2 ^ (8 * Z.of_nat (S i))) mod 2 ^ 8) :: byte_groups (S i) u).
    cbn [map]. cbn [byte_groups map]. rewrite dotted_cons.
    now rewrite !append_assoc.
Qed.

(** The integral overload on every type but [bool]: one decimal group per
    byte of the type, most significant first. *)
Lemma print_ip_integral_text (T : integral) (v : Z) (cout : ostream) :
  T <> Bool ->
  print_ip_integral T v cout
  = Printed (cout
             ++ dotted (map decimal (byte_groups (sizeof T) (v mod 2 ^ bits T)))
             ++ newline)%string.
Proof.
  intros HT. destruct (make_unsigned_defined T HT) as [uT HuT].
  destruct (make_unsigned_some T uT HuT) as (_ & HuB & HuS & Hsize).
  unfold print_ip_integral. rewrite HuT.
  rewrite (static_cast_unsigned uT v HuB HuS).
  replace (bits uT) with (bits T) by (unfold bits; now rewrite Hsize).
  set (u := v mod 2 ^ bits T).
  destruct (Nat.eqb_spec (sizeof T) 1) as [H1 | H1].
  - assert (Hu : u mod 2 ^ 8 = u).
    { apply Z.mod_small. subst u. rewrite bits_sizeof, H1.
      apply Z.mod_pos_bound. reflexivity. }
    rewrite H1. cbn [byte_groups map]. rewrite Z.div_1_r, Hu.
    rewrite <- Hu at 1. rewrite static_cast_uint16_t_byte, Hu.
    unfold endl, insert_integral. now rewrite append_assoc.
  - pose proof (sizeof_pos T) as Hpos.
    destruct (sizeof T) as [|k] eqn:Hk; [lia|].
    replace (S k - 1)%nat with k by lia.
    rewrite static_cast_uint8_t, static_cast_uint16_t_byte.
    unfold endl, insert_integral. change (integral_text uint16_t) with decimal.
    now rewrite print_ip_high_bytes_text, append_assoc.
Qed.

Lemma print_ip_integral_bool (v : Z) (cout : ostream) :
  print_ip_integral Bool v cout
  = IllFormed "make_unsigned<bool> has no member type".
Proof. reflexivity. Qed.

Lemma pow2_bits_split (T : integral) : 2 ^ bits T = 2 * 2 ^ (bits T - 1).
Proof.
  rewrite <- Z.pow_succ_r by (rewrite bits_sizeof; pose proof (sizeof_pos T); lia).
  f_equal. lia.
Qed.

Lemma in_range_bounds (T : integral) (v : Z) :
  in_range T v -> - 2 ^ (bits T - 1) <= v < 2 ^ bits T.
Proof.
  pose proof (pow2_bits_split T) as Hsplit.
  assert (0 < 2 ^ (bits T - 1))
    by (apply Z.pow_pos_nonneg; [lia | rewrite bits_sizeof; pose proof (sizeof_pos T); lia]).
  destruct T; unfold in_range; cbn [is_signed]; lia.
Qed.

(** On the values of a type, reading the bit pattern as unsigned is the
    conversion the code makes. *)
Lemma reinterpret_unsigned_static_cast (T : integral) (v : Z) :
  in_range T v -> reinterpret_unsigned T v = v mod 2 ^ bits T.
Proof.
  intros H. apply in_range_bounds in H.
  pose proof (pow2_bits_split T) as Hsplit.
  unfold reinterpret_unsigned. destruct (Z.ltb_spec v 0) as [Hneg | Hpos].
  - apply Z.mod_unique with (q := -1); lia.
  - symmetry. apply Z.mod_small. lia.
Qed.

Lemma byte_groups_length (w : nat) (u : Z) : List.length (byte_groups w u) = w.
Proof. induction w as [|w IH]; simpl; [reflexivity | now rewrite IH]. Qed.

Lemma byte_groups_bytes (w : nat) (u : Z) :
  Forall (fun g => 0 <= g <= 255) (byte_groups w u).
Proof.
  induction w as [|w IH]; cbn [byte_groups]; constructor; [|assumption].
  pose proof (Z.mod_pos_bound (u / 2 ^ (8 * Z.of_nat w)) (2 ^ 8) eq_refl) as H.
  change (2 ^ 8) with 256 in *. lia.
Qed.

End IntegralFacts.

(* ================================================================== *)
(** ** The container overload                                          *)
(* ================================================================== *)

Section ContainerFacts.

Variable V : Type.
Variable insert : V -> ostream -> ostream.

(** The element's [operator<<] appends the element's text. *)
Variable text : V -> string.
Hypothesis insert_text : forall x os, insert x os = (os ++ text x)%string.

Lemma each_with_dot_cons (x : V) (l : list V) :
  each_with_dot text (x :: l) = ((text x ++ ".") ++ each_with_dot text l)%string.
Proof.
  unfold each_with_dot. destruct l as [|y l]; simpl.
  - now rewrite append_nil_r.
  - reflexivity.
Qed.

(** [container.end()--] evaluates to [end()] itself: the decrement lands
    on the temporary, which is dropped. *)
Lemma end_post_decrement (c : list V) :
  c <> [] ->
  exists moved, post_decrement (end_ c) = Some (end_ c, moved).
Proof.
  intros Hc. unfold post_decrement, end_. cbn [before after].
  destruct (rev c) as [|x b] eqn:Hrev.
  - apply (f_equal (@rev V)) in Hrev. rewrite rev_involutive in Hrev.
    now subst c.
  - eauto.
Qed.

Lemma back_last (init : list V) (x : V) : back (init ++ [x]) = Some x.
Proof. unfold back. now rewrite rev_unit. Qed.

(** With [end()] as its bound the loop writes every element from the
    iterator on, each with a dot, and stops at [end()]. *)
Lemma print_ip_elements_to_end (c : list V) :
  forall (rest seen : list V) (cout : ostream),
    (List.length seen + List.length rest = List.length c)%nat ->
    print_ip_elements insert seen rest (end_ c) cout
    = Printed (cout ++ each_with_dot text rest)%string.
Proof.
  induction rest as [|x rest IH]; intros seen cout Hlen.
  - cbn [print_ip_elements]. unfold iterator_neq, end_. cbn [before].
    rewrite length_rev. cbn [List.length] in Hlen.
    replace (List.length seen =? List.length c)%nat with true
      by (symmetry; apply Nat.eqb_eq; lia).
    cbn [negb]. unfold each_with_dot. cbn [map String.concat].
    now rewrite append_nil_r.
  - cbn [print_ip_elements]. unfold iterator_neq, end_. cbn [before].
    rewrite length_rev. cbn [List.length] in Hlen.
    replace (List.length seen =? List.length c)%nat with false
      by (symmetry; apply Nat.eqb_neq; lia).
    cbn [negb]. rewrite IH by (cbn [List.length]; lia).
    rewrite insert_text, each_with_dot_cons. unfold insert_string.
    now rewrite !append_assoc.
Qed.

Lemma each_with_dot_then (l : list V) (x : V) :
  (each_with_dot text l ++ text x)%string = dotted (map text (l ++ [x])).
Proof.
  rewrite map_app. cbn [map]. rewrite dotted_snoc, map_map. reflexivity.
Qed.

(** A non-empty container: all elements, then [back()] once more. *)
Lemma print_ip_container_text (c : list V) :
  c <> [] ->
  exists last,
    back c = Some last /\
    forall cout,
      print_ip_container insert c cout
      = Printed (cout ++ dotted (map text (c ++ [last])) ++ newline)%string.
Proof.
  intros Hc. destruct (exists_last Hc) as (init & last & Hsplit).
  exists last. split; [subst c; apply back_last|].
  intros cout. unfold print_ip_container.
  destruct (end_post_decrement c Hc) as [moved ->].
  cbn [begin before after].
  rewrite print_ip_elements_to_end by reflexivity.
  subst c. rewrite back_last, insert_text. unfold endl.
  rewrite <- each_with_dot_then. now rewrite !append_assoc.
Qed.

(** An empty container: [end()--] steps back from [begin()]. *)
Lemma print_ip_container_empty (cout : ostream) :
  print_ip_container insert [] cout = Undefined.
Proof. reflexivity. Qed.

End ContainerFacts.

(* ================================================================== *)
(** ** The traits and the tuple overload                               *)
(* ================================================================== *)

Section TraitFacts.

Variable type : Type.
Variable type_eq_dec : forall a b : type, {a = b} + {a <> b}.

Lemma is_same_type_from_true (T : type) (Types : list type) :
  is_same_type_from type_eq_dec T Types = true <-> Forall (eq T) Types.
Proof.
  induction Types as [|E Types IH]; cbn [is_same_type_from].
  - split; auto.
  - destruct (type_eq_dec T E) as [<- | Hne].
    + rewrite IH. split; intros H; [constructor; auto | now inversion H].
    + split; [discriminate | intros H; inversion H; contradiction].
Qed.

Lemma all_same_cons (T : type) (Types : list type) :
  all_same (T :: Types) <-> Forall (eq T) Types.
Proof.
  unfold all_same. rewrite Forall_forall. split.
  - intros H x Hx. apply H; [now left | now right].
  - intros H a b [<- | Ha] [<- | Hb]; auto.
    + symmetry; auto.
    + rewrite <- (H a Ha). auto.
Qed.

(** [is_same_type] is [true_type] on a non-empty pack of one repeated
    type, [false_type] on a pack with two distinct types, and has no
    [value] on the empty pack. *)
Lemma is_same_type_true (Types : list type) :
  is_same_type type_eq_dec Types = Some true <-> Types <> [] /\ all_same Types.
Proof.
  destruct Types as [|T Types]; cbn [is_same_type].
  - split; [discriminate | intros [H _]; contradiction].
  - rewrite all_same_cons, <- is_same_type_from_true. split.
    + intros H; injection H as H. split; [discriminate | assumption].
    + intros [_ H]. now rewrite H.
Qed.

Lemma is_same_type_false (Types : list type) :
  is_same_type type_eq_dec Types = Some false <-> ~ all_same Types.
Proof.
  destruct Types as [|T Types]; cbn [is_same_type].
  - split; [discriminate | intros H; exfalso; apply H; intros a b []].
  - rewrite all_same_cons, <- is_same_type_from_true.
    destruct (is_same_type_from type_eq_dec T Types); split;
      try discriminate; try congruence; auto.
Qed.

Lemma is_same_type_none (Types : list type) :
  is_same_type type_eq_dec Types = None <-> Types = [].
Proof. destruct Types; cbn [is_same_type]; split; congruence. Qed.

End TraitFacts.

Section TupleFacts.

Lemma insert_value_text (x : value) (os : ostream) :
  insert_value x os = (os ++ value_text x)%string.
Proof. destruct x; reflexivity. Qed.

Lemma homogeneous_all_same (t : list value) :
  homogeneous t <-> all_same (map type_of_value t).
Proof.
  unfold homogeneous, all_same. split.
  - intros H a b Ha Hb. apply in_map_iff in Ha, Hb.
    destruct Ha as (x & <- & Hx), Hb as (y & <- & Hy). auto.
  - intros H x y Hx Hy. apply H; now apply in_map.
Qed.

Lemma tuple_text_dotted (x : value) (t : list value) (k : nat) :
  (value_text x ++ tuple_text (S k) t)%string
  = dotted (map value_text (x :: t)).
Proof.
  revert x k. induction t as [|y t IH]; intros x k.
  - cbn. apply append_nil_r.
  - cbn [tuple_text map Nat.eqb]. rewrite IH.
    cbn [map]. now rewrite dotted_cons.
Qed.

Lemma tuple_text_0 (t : list value) :
  tuple_text 0 t = format_elements t.
Proof.
  destruct t as [|x t]; [reflexivity|].
  cbn [tuple_text Nat.eqb]. cbn ["++"%string]. apply tuple_text_dotted.
Qed.

(** The fold over the indices of the elements still to come. *)
Lemma print_tuple_from (rest : list value) :
  forall (done : list value) (cout : ostream),
    print_tuple (done ++ rest)
      (seq (List.length done) (List.length rest)) cout
    = Printed (cout ++ tuple_text (List.length done) rest ++ newline)%string.
Proof.
  induction rest as [|x rest IH]; intros done cout.
  - reflexivity.
  - cbn [List.length seq print_tuple].
    rewrite nth_error_app2, Nat.sub_diag by lia. cbn [nth_error].
    replace (done ++ x :: rest)%list with ((done ++ [x]) ++ rest)%list
      by (now rewrite <- app_assoc).
    replace (S (List.length done)) with (List.length (done ++ [x]))
      by (rewrite length_app; cbn; lia).
    rewrite IH, insert_value_text. unfold insert_string.
    cbn [tuple_text]. rewrite length_app. cbn [List.length].
    replace (List.length done + 1)%nat with (S (List.length done)) by lia.
    now rewrite !append_assoc.
Qed.

Lemma print_tuple_text (t : list value) (cout : ostream) :
  print_tuple t (make_index_sequence (tuple_size t)) cout
  = Printed (cout ++ format_elements t ++ newline)%string.
Proof.
  rewrite <- tuple_text_0. exact (print_tuple_from t [] cout).
Qed.

(** The three ways the tuple overload ends. *)
Lemma print_ip_tuple_homogeneous (t : list value) (cout : ostream) :
  t <> [] -> homogeneous t ->
  print_ip_tuple t cout
  = Printed (cout ++ format_elements t ++ newline)%string.
Proof.
  intros Hne Hh. unfold print_ip_tuple.
  replace (is_same_type elem_type_eq_dec (map type_of_value t))
    with (Some true).
  - apply print_tuple_text.
  - symmetry. apply is_same_type_true. split.
    + destruct t; [contradiction | discriminate].
    + now apply homogeneous_all_same.
Qed.

Lemma print_ip_tuple_mixed (t : list value) (cout : ostream) :
  ~ homogeneous t ->
  print_ip_tuple t cout = IllFormed "Tuple has different types".
Proof.
  intros Hh. unfold print_ip_tuple.
  replace (is_same_type elem_type_eq_dec (map type_of_value t))
    with (Some false); [reflexivity|].
  symmetry. apply is_same_type_false. now rewrite <- homogeneous_all_same.
Qed.

Lemma print_ip_tuple_empty (cout : ostream) :
  print_ip_tuple [] cout
  = IllFormed "incomplete type is_same_type<std::tuple<>>".
Proof. reflexivity. Qed.

End TupleFacts.

(* ================================================================== *)
(** ** Overload resolution                                             *)
(* ================================================================== *)

Section Dispatch.

(** Exactly one overload is viable at every argument type. *)
Lemma viable_unique (T : type) : exists o, viable T = [o].
Proof. destruct T as [[T|]| | |]; cbn; eauto. Qed.

Lemma print_ip_plain_integral (T : integral) (v : Z) (cout : ostream) :
  print_ip (Plain (VIntegral T v)) cout = print_ip_integral T v cout.
Proof. reflexivity. Qed.

Lemma print_ip_plain_string (s : string) (cout : ostream) :
  print_ip (Plain (VString s)) cout = print_ip_string s cout.
Proof. reflexivity. Qed.

Lemma print_ip_vector (V : elem_type) (c : list value) (cout : ostream) :
  print_ip (Vector V c) cout = print_ip_container insert_value c cout.
Proof. reflexivity. Qed.

Lemma print_ip_list (V : elem_type) (c : list value) (cout : ostream) :
  print_ip (List_ V c) cout = print_ip_container insert_value c cout.
Proof. reflexivity. Qed.

Lemma print_ip_tuple_call (t : list value) (cout : ostream) :
  print_ip (Tuple t) cout = print_ip_tuple t cout.
Proof. reflexivity. Qed.

Lemma print_ip_string_text (s : string) (cout : ostream) :
  print_ip_string s cout = Printed (cout ++ s ++ newline).
Proof.
  unfold print_ip_string, endl, insert_string. now rewrite append_assoc.
Qed.

(** A sequence argument, non-empty. *)
Lemma sequence_text (a : argument) (V : elem_type) (c : list value) :
  a = Vector V c \/ a = List_ V c -> c <> [] ->
  exists last,
    back c = Some last /\ prints_line a (format_elements (c ++ [last])).
Proof.
  intros Ha Hc.
  destruct (print_ip_container_text value insert_value value_text
              insert_value_text c Hc) as (last & Hback & Hout).
  exists last. split; [assumption|].
  intros cout. destruct Ha as [-> | ->]; apply Hout.
Qed.

(** The decimal text of a byte is never the character with that code. *)
Lemma decimal_not_character (v : Z) :
  decimal (v mod 2 ^ 8) <> character v.
Proof.
  assert (Hall : forallb
            (fun n => negb (String.eqb (decimal (Z.of_nat n))
                                       (character (Z.of_nat n))))
            (seq 0 256) = true) by (vm_compute; reflexivity).
  rewrite forallb_forall in Hall.
  pose proof (Z.mod_pos_bound v (2 ^ 8) eq_refl) as Hb.
  change (2 ^ 8)%Z with 256%Z in *.
  specialize (Hall (Z.to_nat (v mod 256))).
  rewrite Z2Nat.id in Hall by lia.
  assert (Hin : In (Z.to_nat (v mod 256)) (seq 0 256)) by (apply in_seq; lia).
  apply Hall in Hin. apply negb_true_iff, String.eqb_neq in Hin.
  unfold character in *. now rewrite Z.mod_mod in Hin by lia.
Qed.

End Dispatch.

(* ================================================================== *)
(** ** The properties                                                  *)
(* ================================================================== *)

(** C1.  A signed integer (of width 1, 2, 4 or 8 bytes) is written as the
    bytes of its bit pattern read as unsigned of the same width, most
    significant first, each as a decimal number from 0 to 255, joined with
    dots; with width 1 that is the single decimal number.  So
    [int8_t{-1}] gives 255, [int16_t{0}] gives 0.0 and
    [int32_t{2130706433}] gives 127.0.0.1. *)
Theorem signed_integer_dotted_bytes :
  (forall (T : integral) (v : Z),
      is_signed T = true -> in_range T v ->
      prints_line (Plain (VIntegral T v)) (format_integer T v)
      /\ In (sizeof T) [1; 2; 4; 8]%nat
      /\ (0 <= reinterpret_unsigned T v < 2 ^ bits T)%Z
      /\ List.length (byte_groups (sizeof T) (reinterpret_unsigned T v))
         = sizeof T
      /\ Forall (fun g => 0 <= g <= 255)%Z
           (byte_groups (sizeof T) (reinterpret_unsigned T v))
      /\ (sizeof T = 1%nat ->
          format_integer T v = decimal (reinterpret_unsigned T v)))
  /\ prints_line (Plain (VIntegral int8_t (-1))) "255"
  /\ prints_line (Plain (VIntegral int16_t 0)) "0.0"
  /\ prints_line (Plain (VIntegral int32_t 2130706433)) "127.0.0.1".
Proof.
  split; [|repeat split; intros cout;
           rewrite print_ip_plain_integral, print_ip_integral_text
             by discriminate; reflexivity].
  intros T v Hs Hr.
  assert (HT : T <> Bool) by (intros ->; discriminate).
  pose proof (reinterpret_unsigned_static_cast T v Hr) as Hu.
  repeat split.
  - intros cout. unfold format_integer. rewrite Hu.
    rewrite print_ip_plain_integral. now apply print_ip_integral_text.
  - destruct T; cbn; auto 6.
  - rewrite Hu. apply Z.mod_pos_bound. apply Z.pow_pos_nonneg; [lia|].
    rewrite bits_sizeof. lia.
  - rewrite Hu. apply Z.mod_pos_bound. apply Z.pow_pos_nonneg; [lia|].
    rewrite bits_sizeof. lia.
  - apply byte_groups_length.
  - apply byte_groups_bytes.
  - intros H1. unfold format_integer. rewrite H1. cbn [byte_groups map].
    rewrite Z.div_1_r, Hu, bits_sizeof, H1.
    change (8 * Z.of_nat 1)%Z with 8%Z. rewrite Z.mod_mod by (cbn; lia).
    reflexivity.
Qed.

Lemma signed_integer_dotted_bytes_witness :
  is_signed int16_t = true /\ in_range int16_t (-2)
  /\ prints_line (Plain (VIntegral int16_t (-2))) "255.254".
Proof.
  assert (Hr : in_range int16_t (-2))
    by (vm_compute; split; [discriminate | reflexivity]).
  split; [reflexivity | split; [exact Hr|]].
  exact (proj1 (proj1 signed_integer_dotted_bytes int16_t (-2)%Z eq_refl Hr)).
Defined.

(** C2.  The claim is that a non-empty vector or list is written as exactly
    its elements, dot-separated, [{100, 200, 300, 400}] as 100.200.300.400
    (so says the comment at that call in [main]).  The code writes the last
    element twice: on that vector the line is 100.200.300.400.400. *)
Theorem vector_example_writes_last_twice :
  prints_line
    (Vector (EIntegral Int) (map (VIntegral Int) [100; 200; 300; 400]%Z))
    "100.200.300.400.400"
  /\ ~ prints_line
        (Vector (EIntegral Int) (map (VIntegral Int) [100; 200; 300; 400]%Z))
        "100.200.300.400"
  /\ print_ip
       (Vector (EIntegral Int) (map (VIntegral Int) [100; 200; 300; 400]%Z)) ""
     = Printed ("100.200.300.400.400" ++ newline).
Proof.
  assert (H : prints_line
                (Vector (EIntegral Int)
                   (map (VIntegral Int) [100; 200; 300; 400]%Z))
                "100.200.300.400.400").
  { destruct (sequence_text _ (EIntegral Int)
                (map (VIntegral Int) [100; 200; 300; 400]%Z)
                (or_introl eq_refl)) as (last & Hback & Hout);
      [discriminate|].
    injection Hback as <-. exact Hout. }
  split; [exact H | split].
  - intros Hshort. specialize (H ""). rewrite (Hshort "") in H.
    vm_compute in H. discriminate.
  - exact (H "").
Qed.

(** C3.  For a non-empty vector or list of [n] elements the container
    overload writes [n+1] dot-separated components: the [n] elements in
    order, then the last element once more.  [container.end()--] yields
    [end()] (the decrement lands on a temporary), so the loop writes every
    element, and [back()] is written after it. *)
Theorem container_writes_last_twice :
  forall (a : argument) (V : elem_type) (c : list value),
    a = Vector V c \/ a = List_ V c -> c <> [] ->
    exists (init : list value) (last : value),
      c = (init ++ [last])%list
      /\ back c = Some last
      /\ option_map fst (post_decrement (end_ c)) = Some (end_ c)
      /\ prints_line a (format_elements (c ++ [last]))
      /\ List.length (c ++ [last]) = S (List.length c).
Proof.
  intros a V c Ha Hc.
  destruct (exists_last Hc) as (init & last & Hsplit).
  destruct (sequence_text a V c Ha Hc) as (last' & Hback & Hout).
  assert (last' = last) as ->
    by (rewrite Hsplit, back_last in Hback; congruence).
  exists init, last. repeat split; try assumption.
  - destruct (end_post_decrement value c Hc) as [moved ->]. reflexivity.
  - rewrite length_app. cbn. lia.
Qed.

Lemma container_writes_last_twice_witness :
  prints_line (List_ (EIntegral Short) (map (VIntegral Short) [400; 300]%Z))
    "400.300.300".
Proof.
  destruct (container_writes_last_twice
              (List_ (EIntegral Short) (map (VIntegral Short) [400; 300]%Z))
              (EIntegral Short) (map (VIntegral Short) [400; 300]%Z)
              (or_intror eq_refl) ltac:(discriminate))
    as (init & last & _ & Hback & _ & Hout & _).
  injection Hback as <-. exact Hout.
Defined.

(** C4.  The claim is that an empty sequence is refused with
    [EmptyInputError] and nothing is read outside the sequence.  The code
    raises nothing: on an empty vector or list it steps back from [begin()]
    and reads [back()], which is undefined behaviour. *)
Theorem empty_container_undefined :
  forall (V : elem_type) (cout : ostream),
    print_ip (Vector V []) cout = Undefined
    /\ print_ip (List_ V []) cout = Undefined
    /\ back (@nil value) = None
    /\ post_decrement (end_ (@nil value)) = None.
Proof. intros V cout. repeat split. Qed.

(** C5 (as amended).  A non-empty tuple whose elements all have one type is
    written as its elements in declared order, dot-separated;
    [std::make_tuple(123, 456, 789, 0)] gives 123.456.789.0. *)
Theorem homogeneous_tuple_dotted :
  (forall t : list value,
      t <> [] -> homogeneous t ->
      prints_line (Tuple t) (format_elements t))
  /\ prints_line (Tuple (map (VIntegral Int) [123; 456; 789; 0]%Z))
       "123.456.789.0".
Proof.
  assert (H : forall t : list value,
             t <> [] -> homogeneous t ->
             prints_line (Tuple t) (format_elements t)).
  { intros t Hne Hh cout. rewrite print_ip_tuple_call.
    now apply print_ip_tuple_homogeneous. }
  split; [exact H|].
  apply (H (map (VIntegral Int) [123; 456; 789; 0]%Z)); [discriminate|].
  intros x y Hx Hy. apply in_map_iff in Hx, Hy.
  destruct Hx as (? & <- & _), Hy as (? & <- & _). reflexivity.
Qed.

Lemma homogeneous_tuple_dotted_witness :
  [VString "a"; VString "b"] <> []
  /\ homogeneous [VString "a"; VString "b"]
  /\ prints_line (Tuple [VString "a"; VString "b"]) "a.b".
Proof.
  assert (Hh : homogeneous [VString "a"; VString "b"]).
  { intros x y [<- | [<- | []]] [<- | [<- | []]]; reflexivity. }
  split; [discriminate | split; [exact Hh|]].
  exact (proj1 homogeneous_tuple_dotted [VString "a"; VString "b"]
           ltac:(discriminate) Hh).
Defined.

(** C5 as stated fails on the tuple with no elements: its elements all share
    one type (there are none), and the call does not compile. *)
Lemma empty_tuple_not_dotted :
  homogeneous []
  /\ ~ prints_line (Tuple []) (format_elements [])
  /\ print_ip (Tuple []) ""
     = IllFormed "incomplete type is_same_type<std::tuple<>>".
Proof.
  split; [intros x y []|]. split; [|reflexivity].
  intros H. specialize (H ""). discriminate.
Qed.

(** C6.  A tuple whose element types are not all the same is turned down at
    compile time: [is_same_type] is [false_type] and the static assertion
    "Tuple has different types" fires, so the call never runs. *)
Theorem mixed_tuple_rejected :
  forall t : list value,
    ~ homogeneous t ->
    viable (type_of (Tuple t)) = [TupleOverload]
    /\ is_same_type elem_type_eq_dec (map type_of_value t) = Some false
    /\ rejected (Tuple t) "Tuple has different types".
Proof.
  intros t Hh. split; [reflexivity | split].
  - apply is_same_type_false. now rewrite <- homogeneous_all_same.
  - intros cout. rewrite print_ip_tuple_call. now apply print_ip_tuple_mixed.
Qed.

Lemma mixed_tuple_rejected_witness :
  ~ homogeneous [VIntegral Int 1; VIntegral Int 2; VString "x"]
  /\ rejected (Tuple [VIntegral Int 1; VIntegral Int 2; VString "x"])
       "Tuple has different types".
Proof.
  assert (Hh : ~ homogeneous [VIntegral Int 1; VIntegral Int 2; VString "x"]).
  { intros H.
    specialize (H (VIntegral Int 1) (VString "x") (or_introl eq_refl)
                  (or_intror (or_intror (or_introl eq_refl)))).
    discriminate. }
  split; [exact Hh|].
  exact (proj2 (proj2 (mixed_tuple_rejected _ Hh))).
Defined.

(** C7.  A string is written as it is: [format(s) = s], and
    [std::string{"Hello, World!"}] gives Hello, World!. *)
Theorem string_verbatim :
  (forall s : string, prints_line (Plain (VString s)) s)
  /\ prints_line (Plain (VString "Hello, World!")) "Hello, World!".
Proof.
  assert (H : forall s : string, prints_line (Plain (VString s)) s).
  { intros s cout. rewrite print_ip_plain_string.
    apply print_ip_string_text. }
  split; [exact H | apply H].
Qed.

(** C8.  The tuple with no elements is turned down at compile time although
    its elements (there are none) all share one type: the tuple overload is
    the one selected, and [is_same_type<std::tuple<>>] matches no
    specialization, so the declared-only primary template is used and has no
    [value]. *)
Theorem empty_tuple_rejected :
  homogeneous []
  /\ viable (type_of (Tuple [])) = [TupleOverload]
  /\ is_same_type elem_type_eq_dec (map type_of_value []) = None
  /\ rejected (Tuple []) "incomplete type is_same_type<std::tuple<>>".
Proof.
  split; [intros x y []|]. repeat split.
Qed.

(** C9 (as amended).  The integral overload takes every integral type other
    than [bool], signed or not, character types included: it is the one
    viable overload, the number of groups is [sizeof] of the type, and a
    one-byte value is written as a decimal number (it is widened to
    [uint16_t] first), never as the character. *)
Theorem integral_overload_every_type_but_bool :
  forall (T : integral) (v : Z),
    T <> Bool ->
    viable (Elem (EIntegral T)) = [IntegralOverload]
    /\ prints_line (Plain (VIntegral T v))
         (dotted (map decimal
                    (byte_groups (sizeof T) (v mod 2 ^ bits T)%Z)))
    /\ List.length (byte_groups (sizeof T) (v mod 2 ^ bits T)%Z) = sizeof T
    /\ (sizeof T = 1%nat ->
        prints_line (Plain (VIntegral T v)) (decimal (v mod 2 ^ 8)%Z)
        /\ decimal (v mod 2 ^ 8)%Z <> character v).
Proof.
  intros T v HT.
  assert (Hline : prints_line (Plain (VIntegral T v))
            (dotted (map decimal
                       (byte_groups (sizeof T) (v mod 2 ^ bits T)%Z)))).
  { intros cout. rewrite print_ip_plain_integral.
    now apply print_ip_integral_text. }
  split; [reflexivity | split; [exact Hline | split]].
  - apply byte_groups_length.
  - intros H1. split; [|apply decimal_not_character].
    intros cout. rewrite (Hline cout), bits_sizeof, H1.
    cbn [byte_groups map]. rewrite Z.div_1_r.
    change (8 * Z.of_nat 1)%Z with 8%Z. rewrite Z.mod_mod by (cbn; lia).
    reflexivity.
Qed.

Lemma integral_overload_every_type_but_bool_witness :
  Char <> Bool
  /\ prints_line (Plain (VIntegral Char 65)) "65"
  /\ prints_line (Plain (VIntegral UnsignedInt 2130706433)) "127.0.0.1".
Proof.
  split; [discriminate | split].
  - exact (proj1 (proj2 (integral_overload_every_type_but_bool Char 65%Z
                           ltac:(discriminate)))).
  - exact (proj1 (proj2 (integral_overload_every_type_but_bool UnsignedInt
                           2130706433%Z ltac:(discriminate)))).
Defined.

(** C9 as stated fails on [bool]: the overload is selected ([bool] is
    integral) and its body does not compile, [std::make_unsigned<bool>]
    having no member [type]; nothing is written. *)
Lemma bool_argument_ill_formed :
  viable (Elem (EIntegral Bool)) = [IntegralOverload]
  /\ print_ip (Plain (VIntegral Bool 1)) ""
     = IllFormed "make_unsigned<bool> has no member type"
  /\ ~ prints_line (Plain (VIntegral Bool 1)) "1".
Proof.
  split; [reflexivity | split; [reflexivity|]].
  intros H. specialize (H ""). discriminate.
Qed.

(** The whole of [main]: eight lines, the two container lines with their
    last element doubled. *)
Lemma main_output :
  main = Printed (String.concat newline
                    [ "255"; "0.0"; "127.0.0.1";
                      "123.45.67.89.101.112.131.41";
                      "Hello, World!";
                      "100.200.300.400.400";
                      "400.300.200.100.100";
                      "123.456.789.0"; "" ]).
Proof. vm_compute. reflexivity. Qed.

(* ================================================================== *)
(** ** More on strings and decimal texts                               *)
(* ================================================================== *)

Section TextFacts.

Lemma length_append (a b : string) :
  String.length (a ++ b) = (String.length a + String.length b)%nat.
Proof. induction a as [|c a IH]; simpl; [reflexivity | now rewrite IH]. Qed.

Lemma append_inj_r (a b c : string) : a ++ c = b ++ c -> a = b.
Proof.
  revert b. induction a as [|x a IH]; intros [|y b] H.
  - reflexivity.
  - apply (f_equal String.length) in H. simpl in H.
    rewrite length_append in H. lia.
  - apply (f_equal String.length) in H. simpl in H.
    rewrite length_append in H. lia.
  - simpl in H. injection H as -> H. f_equal. now apply IH.
Qed.

Lemma dotted_first (x : string) (l : list string) :
  dotted (x :: l) = x ++ dotted_rest l.
Proof. destruct l; simpl; [now rewrite append_nil_r | reflexivity]. Qed.

Lemma dot_free_append (a b : string) :
  dot_free (a ++ b) = dot_free a && dot_free b.
Proof.
  induction a as [|c a IH]; simpl; [reflexivity|].
  now rewrite IH, andb_assoc.
Qed.

Lemma count_dots_append (a b : string) :
  count_dots (a ++ b) = (count_dots a + count_dots b)%nat.
Proof. induction a as [|c a IH]; simpl; [reflexivity | rewrite IH; lia]. Qed.

Lemma count_dots_dot_free (a : string) : dot_free a = true -> count_dots a = 0%nat.
Proof.
  induction a as [|c a IH]; simpl; [reflexivity|].
  intros H. apply andb_true_iff in H as [Hc Ha].
  destruct (Ascii.eqb c "."); [discriminate | now apply IH].
Qed.

Lemma digits_and_dots_append (a b : string) :
  digits_and_dots (a ++ b) = digits_and_dots a && digits_and_dots b.
Proof.
  induction a as [|c a IH]; simpl; [reflexivity|].
  now rewrite IH, andb_assoc.
Qed.

(** A dot-free text ends where the first dot, or the end, comes. *)
Lemma dot_free_prefix_unique (x y : string) (l1 l2 : list string) :
  dot_free x = true -> dot_free y = true ->
  x ++ dotted_rest l1 = y ++ dotted_rest l2 ->
  x = y /\ dotted_rest l1 = dotted_rest l2.
Proof.
  revert y. induction x as [|c x IH]; intros [|d y] Hx Hy H.
  - auto.
  - exfalso. simpl in H. destruct l1; simpl in H; [discriminate|].
    injection H as <- _. simpl in Hy. discriminate.
  - exfalso. simpl in H. destruct l2; simpl in H; [discriminate|].
    injection H as -> _. simpl in Hx. discriminate.
  - simpl in H, Hx, Hy. injection H as -> H.
    apply andb_true_iff in Hx as [_ Hx]. apply andb_true_iff in Hy as [_ Hy].
    destruct (IH y Hx Hy H) as [-> Hrest]. auto.
Qed.

(** Dot-free components can be read back from their dotted text. *)
Lemma dotted_inj (l1 l2 : list string) :
  l1 <> [] -> l2 <> [] ->
  Forall (fun x => dot_free x = true) l1 ->
  Forall (fun x => dot_free x = true) l2 ->
  dotted l1 = dotted l2 -> l1 = l2.
Proof.
  revert l2. induction l1 as [|x l1 IH]; intros [|y l2] H1 H2 F1 F2 H;
    try contradiction.
  rewrite !dotted_first in H. inversion F1 as [|? ? Hx F1']. subst.
  inversion F2 as [|? ? Hy F2']. subst.
  destruct (dot_free_prefix_unique x y l1 l2 Hx Hy H) as [-> Hrest].
  f_equal. destruct l1 as [|x1 l1], l2 as [|y1 l2];
    try reflexivity; try discriminate.
  apply IH; try discriminate; try assumption.
  unfold dotted_rest in Hrest. now injection Hrest.
Qed.

Lemma uint_text_dot_free (d : Decimal.uint) :
  dot_free (NilEmpty.string_of_uint d) = true
  /\ digits_and_dots (NilEmpty.string_of_uint d) = true.
Proof. induction d; simpl; auto; destruct IHd; split; assumption. Qed.

Lemma to_int_not_nil (v : Z) :
  Z.to_int v <> Decimal.Pos Decimal.Nil /\ Z.to_int v <> Decimal.Neg Decimal.Nil.
Proof.
  split; intros H; pose proof (DecimalZ.of_to v) as Hv; rewrite H in Hv;
    cbn in Hv; subst v; discriminate.
Qed.

(** Decimal texts name their numbers. *)
Lemma decimal_inj (a b : Z) : decimal a = decimal b -> a = b.
Proof.
  unfold decimal. intros H.
  apply (f_equal NilZero.int_of_string) in H.
  destruct (to_int_not_nil a), (to_int_not_nil b).
  rewrite !NilZero.isi in H by assumption. injection H as H.
  rewrite <- (DecimalZ.of_to a), <- (DecimalZ.of_to b). now rewrite H.
Qed.

Lemma decimal_dot_free (v : Z) : dot_free (decimal v) = true.
Proof.
  unfold decimal. destruct (Z.to_int v) as [d | d]; simpl.
  - destruct d; try apply uint_text_dot_free. reflexivity.
  - destruct d; try apply uint_text_dot_free. reflexivity.
Qed.

(** A byte takes one to three digits. *)
Lemma decimal_byte (g : Z) :
  (0 <= g <= 255)%Z ->
  (1 <= String.length (decimal g) <= 3)%nat
  /\ digits_and_dots (decimal g) = true.
Proof.
  intros Hg.
  assert (Hall : forallb
            (fun n => let s := decimal (Z.of_nat n) in
                      (1 <=? String.length s)%nat
                      && (String.length s <=? 3)%nat
                      && digits_and_dots s)
            (seq 0 256) = true) by (vm_compute; reflexivity).
  rewrite forallb_forall in Hall.
  specialize (Hall (Z.to_nat g)). rewrite Z2Nat.id in Hall by lia.
  assert (Hin : In (Z.to_nat g) (seq 0 256)) by (apply in_seq; lia).
  apply Hall in Hin. cbv zeta in Hin.
  apply andb_true_iff in Hin as [Hin Hd].
  apply andb_true_iff in Hin as [Hlo Hhi].
  apply Nat.leb_le in Hlo, Hhi. auto.
Qed.

End TextFacts.

(* ================================================================== *)
(** ** The integral overload: what a line tells                        *)
(* ================================================================== *)

Section IntegralLines.
Local Open Scope Z_scope.

(** The groups of a value put together again give its low [8 * w] bits. *)
Lemma fold_byte_groups (w : nat) (u acc : Z) :
  fold_left (fun a g => a * 2 ^ 8 + g) (byte_groups w u) acc
  = acc * 2 ^ (8 * Z.of_nat w) + u mod 2 ^ (8 * Z.of_nat w).
Proof.
  revert acc. induction w as [|w IH]; intros acc.
  - cbn [byte_groups fold_left]. change (8 * Z.of_nat 0) with 0.
    rewrite Z.pow_0_r, Z.mod_1_r. lia.
  - cbn [byte_groups fold_left]. rewrite IH.
    replace (8 * Z.of_nat (S w)) with (8 * Z.of_nat w + 8) by lia.
    rewrite Z.pow_add_r by lia.
    rewrite (Z.rem_mul_r u (2 ^ (8 * Z.of_nat w)) (2 ^ 8))
      by (try apply Z.pow_nonzero; lia).
    ring.
Qed.

Lemma groups_value_byte_groups (w : nat) (u : Z) :
  groups_value (byte_groups w u) = u mod 2 ^ (8 * Z.of_nat w).
Proof. unfold groups_value. rewrite fold_byte_groups. lia. Qed.

Lemma map_decimal_inj (l1 l2 : list Z) :
  map decimal l1 = map decimal l2 -> l1 = l2.
Proof.
  revert l2. induction l1 as [|x l1 IH]; intros [|y l2] H;
    try discriminate; [reflexivity|].
  cbn [map] in H. injection H as Hx Hl.
  f_equal; [now apply decimal_inj | now apply IH].
Qed.

Lemma decimals_dot_free (l : list Z) :
  Forall (fun x => dot_free x = true) (map decimal l).
Proof.
  induction l; cbn [map]; constructor; [apply decimal_dot_free | assumption].
Qed.

(** Two values of one type with the same bit pattern are the same value. *)
Lemma in_range_mod_inj (T : integral) (v1 v2 : Z) :
  in_range T v1 -> in_range T v2 ->
  v1 mod 2 ^ bits T = v2 mod 2 ^ bits T -> v1 = v2.
Proof.
  intros H1 H2 Hmod.
  pose proof (pow2_bits_split T) as Hsplit.
  assert (Hpos : 0 < 2 ^ (bits T - 1))
    by (apply Z.pow_pos_nonneg; [lia | rewrite bits_sizeof; pose proof (sizeof_pos T); lia]).
  assert (Hd : - 2 ^ bits T < v1 - v2 < 2 ^ bits T).
  { destruct T; unfold in_range in H1, H2; cbn [is_signed] in H1, H2; lia. }
  pose proof (Z.div_mod v1 (2 ^ bits T) ltac:(lia)) as E1.
  pose proof (Z.div_mod v2 (2 ^ bits T) ltac:(lia)) as E2.
  rewrite Hmod in E1.
  set (M := 2 ^ bits T) in *. set (q1 := v1 / M) in *. set (q2 := v2 / M) in *.
  assert (q1 = q2) by nia. subst q1 q2. rewrite E1, E2. congruence.
Qed.

(** Groups given by their decimal texts: dots, length, alphabet. *)
Lemma dotted_bytes_shape (l : list Z) :
  l <> [] -> Forall (fun g => 0 <= g <= 255) l ->
  count_dots (dotted (map decimal l)) = (List.length l - 1)%nat
  /\ (2 * List.length l - 1 <= String.length (dotted (map decimal l))
      <= 4 * List.length l - 1)%nat
  /\ digits_and_dots (dotted (map decimal l)) = true.
Proof.
  induction l as [|g l IH]; [contradiction|]. intros _ HF.
  inversion HF as [|? ? Hg HF']. subst.
  destruct (decimal_byte g Hg) as (Hlen & Hdig).
  destruct l as [|g' l].
  - cbn [map dotted String.concat List.length].
    rewrite (count_dots_dot_free _ (decimal_dot_free g)).
    repeat split; try lia. assumption.
  - destruct (IH ltac:(discriminate) HF') as (Hc & Hl & Hd).
    cbn [map] in *. rewrite dotted_cons.
    rewrite !count_dots_append, !length_append, !digits_and_dots_append.
    rewrite (count_dots_dot_free _ (decimal_dot_free g)), Hc, Hd, Hdig.
    cbn [count_dots String.length digits_and_dots List.length append] in *.
    change (Ascii.eqb "." ".") with true. change (is_digit ".") with false.
    cbn [orb andb]. repeat split; lia.
Qed.

End IntegralLines.

(** X5.  Two integers, of any integral types but [bool], are written as
    the same line exactly when their types have the same size and the values
    the same bit pattern: neither the signedness nor the name of the type
    shows, and nothing else is lost. *)
Theorem integral_lines_equal_iff :
  forall (T1 T2 : integral) (v1 v2 : Z) (cout : ostream),
    T1 <> Bool -> T2 <> Bool ->
    (print_ip (Plain (VIntegral T1 v1)) cout
     = print_ip (Plain (VIntegral T2 v2)) cout
     <-> sizeof T1 = sizeof T2
         /\ (v1 mod 2 ^ bits T1 = v2 mod 2 ^ bits T2)%Z).
Proof.
  intros T1 T2 v1 v2 cout H1 H2.
  rewrite !print_ip_plain_integral, !print_ip_integral_text by assumption.
  split.
  - intros H. injection H as H.
    apply append_inj_l, append_inj_r in H.
    apply dotted_inj in H; try apply decimals_dot_free.
    + apply map_decimal_inj in H.
      assert (Hsize : sizeof T1 = sizeof T2).
      { rewrite <- (byte_groups_length (sizeof T1) (v1 mod 2 ^ bits T1)%Z).
        rewrite H. apply byte_groups_length. }
      split; [exact Hsize|].
      apply (f_equal groups_value) in H.
      rewrite !groups_value_byte_groups in H.
      rewrite <- !bits_sizeof in H.
      rewrite !Z.mod_mod in H
        by (apply Z.pow_nonzero; [lia | rewrite bits_sizeof; lia]).
      exact H.
    + pose proof (sizeof_pos T1). destruct (sizeof T1); [lia | discriminate].
    + pose proof (sizeof_pos T2). destruct (sizeof T2); [lia | discriminate].
  - intros [Hsize Hv]. now rewrite Hsize, Hv.
Qed.

Lemma integral_lines_equal_iff_witness :
  int32_t <> Bool /\ UnsignedInt <> Bool
  /\ print_ip (Plain (VIntegral int32_t (-1))) ""
     = print_ip (Plain (VIntegral UnsignedInt 4294967295)) "".
Proof.
  split; [discriminate | split; [discriminate|]].
  apply (proj2 (integral_lines_equal_iff int32_t UnsignedInt (-1) 4294967295
                  "" ltac:(discriminate) ltac:(discriminate))).
  split; reflexivity.
Defined.

(** X6.  On the values of one integral type the integral overload is
    one-to-one: two values written as the same line are the same value. *)
Theorem integral_line_injective :
  forall (T : integral) (v1 v2 : Z) (line : string),
    T <> Bool -> in_range T v1 -> in_range T v2 ->
    prints_line (Plain (VIntegral T v1)) line ->
    prints_line (Plain (VIntegral T v2)) line ->
    v1 = v2.
Proof.
  intros T v1 v2 line HT Hr1 Hr2 L1 L2.
  specialize (L1 ""). specialize (L2 ""). rewrite <- L2 in L1.
  rewrite !print_ip_plain_integral, !print_ip_integral_text in L1 by assumption.
  injection L1 as H. apply append_inj_r in H.
  apply dotted_inj in H; try apply decimals_dot_free;
    try (pose proof (sizeof_pos T); destruct (sizeof T); [lia | discriminate]).
  apply map_decimal_inj in H. apply (f_equal groups_value) in H.
  rewrite !groups_value_byte_groups, <- !bits_sizeof in H.
  rewrite !Z.mod_mod in H
    by (apply Z.pow_nonzero; [lia | rewrite bits_sizeof; lia]).
  now apply (in_range_mod_inj T).
Qed.

Lemma integral_line_injective_witness :
  in_range int16_t 258
  /\ prints_line (Plain (VIntegral int16_t 258)) "1.2"
  /\ 258%Z = (256 + 2)%Z.
Proof.
  assert (Hr : in_range int16_t 258)
    by (vm_compute; split; [discriminate | reflexivity]).
  assert (Hl : prints_line (Plain (VIntegral int16_t 258)) "1.2").
  { intros cout. rewrite print_ip_plain_integral, print_ip_integral_text
      by discriminate. reflexivity. }
  split; [exact Hr | split; [exact Hl|]].
  exact (integral_line_injective int16_t 258 (256 + 2) "1.2"
           ltac:(discriminate) Hr Hr Hl Hl).
Defined.

(** X7.  The line of an integer of a type of [n] bytes has [n] groups and
    [n-1] dots, is made of digits and dots only, and is between [2n-1] and
    [4n-1] characters long (15 for a 4-byte type). *)
Theorem integral_line_shape :
  forall (T : integral) (v : Z),
    T <> Bool ->
    exists line : string,
      prints_line (Plain (VIntegral T v)) line
      /\ count_dots line = (sizeof T - 1)%nat
      /\ (2 * sizeof T - 1 <= String.length line <= 4 * sizeof T - 1)%nat
      /\ digits_and_dots line = true.
Proof.
  intros T v HT.
  exists (dotted (map decimal (byte_groups (sizeof T) (v mod 2 ^ bits T)%Z))).
  split.
  - intros cout. rewrite print_ip_plain_integral.
    now apply print_ip_integral_text.
  - pose proof (dotted_bytes_shape
                  (byte_groups (sizeof T) (v mod 2 ^ bits T)%Z)) as H.
    rewrite byte_groups_length in H. apply H.
    + pose proof (sizeof_pos T). destruct (sizeof T); [lia | discriminate].
    + apply byte_groups_bytes.
Qed.

Lemma integral_line_shape_witness :
  exists line : string,
    prints_line (Plain (VIntegral int32_t (-1))) line
    /\ count_dots line = 3%nat
    /\ (7 <= String.length line <= 15)%nat
    /\ digits_and_dots line = true.
Proof.
  exact (integral_line_shape int32_t (-1) ltac:(discriminate)).
Defined.

(** X8.  A narrow character passed on its own is written as the number of
    its code; the same character as the element of a tuple or of a container
    is written as the character itself, and the two texts always differ. *)
Theorem char_number_alone_character_inside :
  forall (T : integral) (v : Z),
    In T [Char; SignedChar; UnsignedChar] ->
    prints_line (Plain (VIntegral T v)) (decimal (v mod 2 ^ 8)%Z)
    /\ prints_line (Tuple [VIntegral T v]) (character v)
    /\ prints_line (Vector (EIntegral T) [VIntegral T v])
         (character v ++ "." ++ character v)
    /\ decimal (v mod 2 ^ 8)%Z <> character v.
Proof.
  intros T v HT.
  assert (Hcases : T = Char \/ T = SignedChar \/ T = UnsignedChar)
    by (cbn in HT; intuition auto).
  assert (Htext : value_text (VIntegral T v) = character v)
    by (destruct Hcases as [-> | [-> | ->]]; reflexivity).
  repeat split.
  - intros cout. rewrite print_ip_plain_integral, print_ip_integral_text
      by (destruct Hcases as [-> | [-> | ->]]; discriminate).
    destruct Hcases as [-> | [-> | ->]]; cbn [sizeof byte_groups map];
      rewrite Z.div_1_r, Z.mod_mod by (cbn; lia); reflexivity.
  - intros cout. rewrite print_ip_tuple_call.
    rewrite print_ip_tuple_homogeneous.
    + unfold format_elements. cbn [map dotted String.concat].
      now rewrite Htext.
    + discriminate.
    + intros x y [<- | []] [<- | []]. reflexivity.
  - destruct (sequence_text (Vector (EIntegral T) [VIntegral T v])
                (EIntegral T) [VIntegral T v] (or_introl eq_refl)
                ltac:(discriminate)) as (last & Hback & Hout).
    injection Hback as <-. intros cout. rewrite (Hout cout).
    unfold format_elements. cbn [app map]. rewrite dotted_cons.
    cbn [dotted String.concat]. now rewrite Htext.
  - apply decimal_not_character.
Qed.

Lemma char_number_alone_character_inside_witness :
  prints_line (Plain (VIntegral Char 65)) "65"
  /\ prints_line (Tuple [VIntegral Char 65]) "A"
  /\ prints_line (Vector (EIntegral Char) [VIntegral Char 65]) "A.A".
Proof.
  destruct (char_number_alone_character_inside Char 65 (or_introl eq_refl))
    as (H1 & H2 & H3 & _).
  split; [exact H1 | split; [exact H2 | exact H3]].
Defined.

(* ================================================================== *)
(** ** Which calls compile, which run                                  *)
(* ================================================================== *)

Section Calls.

(** Every call ends in one of three ways, told by the argument. *)
Lemma call_cases (a : argument) :
  (runs a /\ exists text, prints_line a text)
  \/ ((exists V, a = Vector V [] \/ a = List_ V [])
      /\ forall cout, print_ip a cout = Undefined)
  \/ (((exists v, a = Plain (VIntegral Bool v))
       \/ (exists t, a = Tuple t /\ (t = [] \/ ~ homogeneous t)))
      /\ exists d, forall cout, print_ip a cout = IllFormed d).
Proof.
  destruct a as [[T v | s] | V c | V c | t].
  - destruct (integral_eq_dec T Bool) as [-> | HT].
    + right. right. split; [left; eauto|].
      eexists. intros cout. reflexivity.
    + left. split; [exact HT|]. eexists. intros cout.
      rewrite print_ip_plain_integral. now apply print_ip_integral_text.
  - left. split; [exact I|]. exists s. intros cout.
    rewrite print_ip_plain_string. apply print_ip_string_text.
  - destruct c as [|x c].
    + right. left. split; [exists V; auto | reflexivity].
    + left. split; [discriminate|].
      destruct (sequence_text (Vector V (x :: c)) V (x :: c)
                  (or_introl eq_refl) ltac:(discriminate)) as (last & _ & H).
      eauto.
  - destruct c as [|x c].
    + right. left. split; [exists V; auto | reflexivity].
    + left. split; [discriminate|].
      destruct (sequence_text (List_ V (x :: c)) V (x :: c)
                  (or_intror eq_refl) ltac:(discriminate)) as (last & _ & H).
      eauto.
  - destruct (is_same_type elem_type_eq_dec (map type_of_value t))
      as [[|]|] eqn:E.
    + apply is_same_type_true in E. destruct E as [Hne Hsame].
      apply homogeneous_all_same in Hsame.
      assert (Ht : t <> []) by (intros ->; now apply Hne).
      left. split; [split; assumption|].
      exists (format_elements t). intros cout. rewrite print_ip_tuple_call.
      now apply print_ip_tuple_homogeneous.
    + apply is_same_type_false in E. rewrite <- homogeneous_all_same in E.
      right. right. split; [right; exists t; auto|].
      eexists. intros cout. rewrite print_ip_tuple_call.
      now apply print_ip_tuple_mixed.
    + apply is_same_type_none in E. apply map_eq_nil in E. subst t.
      right. right. split; [right; exists []; auto|].
      eexists. intros cout. reflexivity.
Qed.

End Calls.

(** X1.  At every argument type exactly one of the four overloads of
    [print_ip] is enabled: a call is never ambiguous and never without a
    candidate; [std::string] is not taken for a container, nor a tuple. *)
Theorem one_overload_per_type :
  forall T : type,
    exists o : overload,
      viable T = [o]
      /\ forall o' : overload, enabled o' T = true <-> o' = o.
Proof.
  intros T.
  destruct T as [[T|]| V | V | Types];
    [ exists IntegralOverload | exists StringOverload
    | exists ContainerOverload | exists ContainerOverload
    | exists TupleOverload ];
    (split; [reflexivity|]); intros []; cbn; split;
    intros H; try reflexivity; try discriminate.
Qed.

(** X2.  A call writes its line and returns exactly when the argument is an
    integer of a type other than [bool], a string, a non-empty vector or
    list, or a non-empty tuple of elements of one type. *)
Theorem call_returns_iff :
  forall (a : argument) (cout : ostream),
    ((exists out, print_ip a cout = Printed out) <-> runs a)
    /\ ((exists text, prints_line a text) <-> runs a).
Proof.
  intros a cout.
  destruct (call_cases a) as [(Hr & text & Ht) | [(Hc & Hu) | (Hc & d & Hd)]].
  - split; split; intros _; eauto.
  - assert (Hn : ~ runs a).
    { destruct Hc as (V & [-> | ->]); cbn; intros H; now apply H. }
    split; split; intros H; try contradiction.
    + destruct H as (out & H). rewrite Hu in H. discriminate.
    + destruct H as (text & H). specialize (H ""). rewrite Hu in H.
      discriminate.
  - assert (Hn : ~ runs a).
    { destruct Hc as [(v & ->) | (t & -> & [-> | Hh])]; cbn.
      - intros H; now apply H.
      - intros [H _]; now apply H.
      - intros [_ H]; now apply Hh. }
    split; split; intros H; try contradiction.
    + destruct H as (out & H). rewrite Hd in H. discriminate.
    + destruct H as (text & H). specialize (H ""). rewrite Hd in H.
      discriminate.
Qed.

(** X3.  Among the calls the four overloads are written for (an integer, a
    [std::string], a vector or list or tuple of integers or strings), a call
    has undefined behaviour exactly on an empty vector or list, and fails to
    compile exactly on a [bool] and on a tuple that is empty or has elements
    of different types.  Calls on other types (a [double], a character
    pointer, elements without [operator<<]) are not arguments here. *)
Theorem call_fails_iff :
  forall (a : argument) (cout : ostream),
    (print_ip a cout = Undefined
     <-> exists V, a = Vector V [] \/ a = List_ V [])
    /\ ((exists d, print_ip a cout = IllFormed d)
        <-> (exists v, a = Plain (VIntegral Bool v))
            \/ (exists t, a = Tuple t /\ (t = [] \/ ~ homogeneous t))).
Proof.
  intros a cout.
  destruct (call_cases a) as [(Hr & text & Ht) | [(Hc & Hu) | (Hc & d & Hd)]].
  - rewrite (Ht cout). split; split; intros H.
    + discriminate.
    + exfalso. destruct H as (V & [-> | ->]); cbn in Hr; now apply Hr.
    + destruct H as (d & H). discriminate.
    + exfalso. destruct H as [(v & ->) | (t & -> & [-> | Hh])]; cbn in Hr.
      * now apply Hr.
      * destruct Hr as [Hr _]. now apply Hr.
      * destruct Hr as [_ Hr]. now apply Hh.
  - rewrite Hu. split; split; intros H; auto.
    + destruct H as (d & H). discriminate.
    + exfalso.
      destruct Hc as (V & [-> | ->]);
        destruct H as [(v & H) | (t & H & _)]; discriminate.
  - rewrite Hd. split; split; intros H; eauto.
    + discriminate.
    + exfalso.
      destruct H as (V & [-> | ->]);
        destruct Hc as [(v & H) | (t & H & _)]; discriminate.
Qed.

(* ================================================================== *)
(** ** The loop, the fold and the trait on their own                   *)
(* ================================================================== *)

Section LoopFacts.

Variable V : Type.
Variable insert : V -> ostream -> ostream.
Variable text : V -> string.
Hypothesis insert_text : forall x os, insert x os = (os ++ text x)%string.

(** From any place not past the bound, the loop writes the elements up to
    the bound, each with a dot, and returns there. *)
Lemma print_ip_elements_to_bound (bound : iterator V) :
  forall (rest seen : list V) (cout : ostream),
    (List.length seen <= List.length (before bound)
     <= List.length seen + List.length rest)%nat ->
    print_ip_elements insert seen rest bound cout
    = Printed (cout
               ++ each_with_dot text
                    (firstn (List.length (before bound) - List.length seen)
                       rest))%string.
Proof.
  induction rest as [|x rest IH]; intros seen cout Hlen;
    cbn [List.length] in Hlen.
  - cbn [print_ip_elements]. unfold iterator_neq. cbn [before].
    replace (List.length seen =? List.length (before bound))%nat with true
      by (symmetry; apply Nat.eqb_eq; lia).
    cbn [negb]. rewrite firstn_nil. unfold each_with_dot.
    cbn [map String.concat]. now rewrite append_nil_r.
  - cbn [print_ip_elements]. unfold iterator_neq. cbn [before].
    destruct (Nat.eqb_spec (List.length seen) (List.length (before bound)))
      as [Heq | Hne]; cbn [negb].
    + rewrite Heq, Nat.sub_diag. cbn [firstn]. unfold each_with_dot.
      cbn [map String.concat]. now rewrite append_nil_r.
    + rewrite IH by (cbn [List.length]; lia). cbn [List.length].
      replace (List.length (before bound) - List.length seen)%nat
        with (S (List.length (before bound) - S (List.length seen))) by lia.
      cbn [firstn]. rewrite insert_text, each_with_dot_cons.
      unfold insert_string. now rewrite !append_assoc.
Qed.

End LoopFacts.

Section TraitMore.

Variable type : Type.
Variable type_eq_dec : forall a b : type, {a = b} + {a <> b}.

Lemma is_same_type_from_false (T : type) (Types : list type) :
  is_same_type_from type_eq_dec T Types = false ->
  exists E, In E Types /\ T <> E.
Proof.
  induction Types as [|E Types IH]; cbn [is_same_type_from]; [discriminate|].
  destruct (type_eq_dec T E) as [<- | Hne].
  - intros H. destruct (IH H) as (E' & Hin & Hd). exists E'. split; auto.
    now right.
  - intros _. exists E. split; auto. now left.
Qed.

End TraitMore.

(** X4.  Started at [begin()], the loop of the container overload writes
    the elements before its bound, each followed by a dot, and stops at the
    bound without reading the element there; with [end()] as the bound it
    reads every element and nothing past the last. *)
Theorem loop_stops_at_bound :
  forall (c : list value) (bound : iterator value) (cout : ostream),
    (List.length (before bound) <= List.length c)%nat ->
    print_ip_elements insert_value (before (begin c)) (after (begin c))
      bound cout
    = Printed (cout
               ++ each_with_dot value_text
                    (firstn (List.length (before bound)) c)).
Proof.
  intros c bound cout Hb. cbn [begin before after].
  rewrite (print_ip_elements_to_bound value insert_value value_text
             insert_value_text bound c [] cout) by (cbn [List.length]; lia).
  cbn [List.length]. now rewrite Nat.sub_0_r.
Qed.

Lemma loop_stops_at_bound_witness :
  print_ip_elements insert_value [] [VString "a"; VString "b"; VString "c"]
    (Iterator [VString "b"; VString "a"] [VString "c"]) ""
  = Printed "a.b.".
Proof.
  exact (loop_stops_at_bound [VString "a"; VString "b"; VString "c"]
           (Iterator [VString "b"; VString "a"] [VString "c"]) ""
           ltac:(cbn; lia)).
Defined.

(** X9.  [print_tuple] itself, given the full index sequence, writes the
    elements of any tuple in order, dot-separated: also of a tuple with
    elements of different types, and an empty line for the empty tuple.
    Only the tuple overload of [print_ip] turns those down. *)
Theorem print_tuple_writes_any_tuple :
  forall (t : list value) (cout : ostream),
    print_tuple t (make_index_sequence (tuple_size t)) cout
    = Printed (cout ++ format_elements t ++ newline)
    /\ print_tuple [] (make_index_sequence (tuple_size [])) cout
       = Printed (cout ++ newline).
Proof.
  intros t cout. split; [|reflexivity].
  rewrite <- tuple_text_0. exact (print_tuple_from t [] cout).
Qed.

(** X10.  [is_same_type], over any types: it has no value on the empty
    pack, is [true_type] exactly on a pack that repeats one type (once or
    more), and [false_type] exactly on a pack holding two different types,
    wherever in the pack they stand. *)
Theorem is_same_type_decides :
  forall (type : Type) (type_eq_dec : forall a b : type, {a = b} + {a <> b})
         (Types : list type),
    (is_same_type type_eq_dec Types = None <-> Types = [])
    /\ (is_same_type type_eq_dec Types = Some true
        <-> exists T n, Types = repeat T (S n))
    /\ (is_same_type type_eq_dec Types = Some false
        <-> exists A B, In A Types /\ In B Types /\ A <> B).
Proof.
  intros type dec Types. split; [apply is_same_type_none | split].
  - rewrite is_same_type_true. split.
    + intros [Hne Hsame]. destruct Types as [|T Types]; [contradiction|].
      apply all_same_cons in Hsame. apply Forall_eq_repeat in Hsame.
      exists T, (List.length Types). cbn [repeat]. now rewrite <- Hsame.
    + intros (T & n & ->). split; [discriminate|].
      intros a b Ha Hb. apply repeat_spec in Ha, Hb. congruence.
  - split.
    + intros H. destruct Types as [|T Types]; [discriminate|].
      cbn [is_same_type] in H. injection H as H.
      destruct (is_same_type_from_false type dec T Types H) as (E & Hin & Hd).
      exists T, E. repeat split; auto; [now left | now right].
    + intros (A & B & HA & HB & Hd). apply is_same_type_false.
      intros Hsame. apply Hd. now apply Hsame.
Qed.

(** X11.  An integer is written as the tuple of its bytes, most significant
    first, would be: [print_ip(int32_t{2130706433})] and
    [print_ip(std::make_tuple(127, 0, 0, 1))] write the same line. *)
Theorem integer_as_tuple_of_bytes :
  forall (T : integral) (v : Z),
    T <> Bool ->
    exists line : string,
      prints_line (Plain (VIntegral T v)) line
      /\ prints_line
           (Tuple (map (VIntegral Int)
                     (byte_groups (sizeof T) (v mod 2 ^ bits T)%Z)))
           line.
Proof.
  intros T v HT.
  exists (dotted (map decimal (byte_groups (sizeof T) (v mod 2 ^ bits T)%Z))).
  split.
  - intros cout. rewrite print_ip_plain_integral.
    now apply print_ip_integral_text.
  - intros cout. rewrite print_ip_tuple_call, print_ip_tuple_homogeneous.
    + unfold format_elements. now rewrite map_map.
    + pose proof (sizeof_pos T). destruct (sizeof T); [lia | discriminate].
    + intros x y Hx Hy. apply in_map_iff in Hx, Hy.
      destruct Hx as (? & <- & _), Hy as (? & <- & _). reflexivity.
Qed.

Lemma integer_as_tuple_of_bytes_witness :
  exists line : string,
    prints_line (Plain (VIntegral int32_t 2130706433)) line
    /\ prints_line (Tuple (map (VIntegral Int) [127; 0; 0; 1]%Z)) line.
Proof.
  exact (integer_as_tuple_of_bytes int32_t 2130706433 ltac:(discriminate)).
Defined.

(** X12.  [main]: each of its eight calls compiles and runs to the end, and
    together they write eight lines; the lines of the vector and of the list
    end in their last element twice, where the comments in [main] show it
    once. *)
Theorem main_runs_and_writes_eight_lines :
  Forall runs main_calls
  /\ main = Printed (String.concat newline
                       [ "255"; "0.0"; "127.0.0.1";
                         "123.45.67.89.101.112.131.41";
                         "Hello, World!";
                         "100.200.300.400.400";
                         "400.300.200.100.100";
                         "123.456.789.0"; "" ]).
Proof.
  split; [|vm_compute; reflexivity].
  unfold main_calls.
  repeat apply Forall_cons; try apply Forall_nil; cbn [runs map];
    try discriminate; try exact I.
  split; [discriminate|].
  intros x y Hx Hy.
  assert (Hall : forall z,
             In z [VIntegral Int 123; VIntegral Int 456; VIntegral Int 789;
                   VIntegral Int 0] ->
             type_of_value z = EIntegral Int).
  { intros z Hz. cbn [In] in Hz.
    destruct Hz as [<- | [<- | [<- | [<- | []]]]]; reflexivity. }
  now rewrite (Hall x Hx), (Hall y Hy).
Qed.

(* ================================================================== *)
(** ** The stream with its format state                                *)
(* ================================================================== *)

Section FormattedFacts.

Variable L : Formatted.iostream.

Lemma insert_prepend (put : Formatted.fmt L -> string * Formatted.fmt L)
    (text : string) (os : Formatted.stream L) :
  Formatted.insert put (Formatted.prepend text os)
  = Formatted.prepend text (Formatted.insert put os).
Proof.
  unfold Formatted.insert, Formatted.prepend.
  cbn [Formatted.state Formatted.written].
  destruct (put (Formatted.state os)) as [t after_it].
  cbn [Formatted.state Formatted.written]. now rewrite append_assoc.
Qed.

Lemma high_bytes_prepend (i : nat) (u : Z) (text : string) :
  forall os : Formatted.stream L,
    Formatted.print_ip_high_bytes L i u (Formatted.prepend text os)
    = Formatted.prepend text (Formatted.print_ip_high_bytes L i u os).
Proof.
  induction i as [|i IH]; intros os; [reflexivity|].
  cbn [Formatted.print_ip_high_bytes]. now rewrite !insert_prepend, IH.
Qed.

Lemma elements_prepend (back_it : iterator value) (text : string) :
  forall (rest seen : list value) (os : Formatted.stream L),
    Formatted.print_ip_elements L seen rest back_it (Formatted.prepend text os)
    = Formatted.prepend_outcome text
        (Formatted.print_ip_elements L seen rest back_it os).
Proof.
  induction rest as [|x rest IH]; intros seen os;
    cbn [Formatted.print_ip_elements];
    destruct (iterator_neq (Iterator seen _) back_it); try reflexivity.
  now rewrite !insert_prepend, IH.
Qed.

Lemma print_tuple_prepend (t : list value) (text : string) :
  forall (indices : list nat) (os : Formatted.stream L),
    Formatted.print_tuple L t indices (Formatted.prepend text os)
    = Formatted.prepend_outcome text (Formatted.print_tuple L t indices os).
Proof.
  induction indices as [|index indices IH]; intros os;
    cbn [Formatted.print_tuple].
  - cbn [Formatted.prepend_outcome]. now rewrite insert_prepend.
  - destruct (nth_error t index); [|reflexivity].
    now rewrite !insert_prepend, IH.
Qed.

(** What a call does to a stream with [text] in front is what it does to
    the stream without it, with [text] in front. *)
Lemma print_ip_prepend (a : argument) (text : string)
    (os : Formatted.stream L) :
  Formatted.print_ip L a (Formatted.prepend text os)
  = Formatted.prepend_outcome text (Formatted.print_ip L a os).
Proof.
  destruct a as [[T v | s] | V c | V c | t].
  - change (Formatted.print_ip_integral L T v (Formatted.prepend text os)
            = Formatted.prepend_outcome text
                (Formatted.print_ip_integral L T v os)).
    unfold Formatted.print_ip_integral.
    destruct (make_unsigned T); [|reflexivity].
    destruct (sizeof T =? 1)%nat; cbn [Formatted.prepend_outcome];
      now rewrite ?high_bytes_prepend, !insert_prepend.
  - change (Formatted.print_ip_string L s (Formatted.prepend text os)
            = Formatted.prepend_outcome text (Formatted.print_ip_string L s os)).
    unfold Formatted.print_ip_string. cbn [Formatted.prepend_outcome].
    now rewrite !insert_prepend.
  - change (Formatted.print_ip_container L c (Formatted.prepend text os)
            = Formatted.prepend_outcome text
                (Formatted.print_ip_container L c os)).
    unfold Formatted.print_ip_container.
    destruct (post_decrement (end_ c)) as [[back_it moved]|]; [|reflexivity].
    rewrite elements_prepend.
    destruct (Formatted.print_ip_elements L _ _ back_it os);
      cbn [Formatted.prepend_outcome]; try reflexivity.
    destruct (back c); [|reflexivity]. now rewrite !insert_prepend.
  - change (Formatted.print_ip_container L c (Formatted.prepend text os)
            = Formatted.prepend_outcome text
                (Formatted.print_ip_container L c os)).
    unfold Formatted.print_ip_container.
    destruct (post_decrement (end_ c)) as [[back_it moved]|]; [|reflexivity].
    rewrite elements_prepend.
    destruct (Formatted.print_ip_elements L _ _ back_it os);
      cbn [Formatted.prepend_outcome]; try reflexivity.
    destruct (back c); [|reflexivity]. now rewrite !insert_prepend.
  - change (Formatted.print_ip_tuple L t (Formatted.prepend text os)
            = Formatted.prepend_outcome text (Formatted.print_ip_tuple L t os)).
    unfold Formatted.print_ip_tuple.
    destruct (is_same_type elem_type_eq_dec (map type_of_value t))
      as [[|]|]; try reflexivity.
    apply print_tuple_prepend.
Qed.

(** With [end()] as its bound the loop comes to its end. *)
Lemma elements_return (c : list value) :
  forall (rest seen : list value) (os : Formatted.stream L),
    (List.length seen + List.length rest = List.length c)%nat ->
    exists r, Formatted.print_ip_elements L seen rest (end_ c) os
              = Formatted.Printed r.
Proof.
  induction rest as [|x rest IH]; intros seen os Hlen;
    cbn [Formatted.print_ip_elements]; unfold iterator_neq, end_;
    cbn [before]; rewrite length_rev; cbn [List.length] in Hlen.
  - replace (List.length seen =? List.length c)%nat with true
      by (symmetry; apply Nat.eqb_eq; lia).
    cbn [negb]. eauto.
  - replace (List.length seen =? List.length c)%nat with false
      by (symmetry; apply Nat.eqb_neq; lia).
    cbn [negb].
    destruct (IH (x :: seen)
                (Formatted.insert (Formatted.put_string L ".")
                   (Formatted.insert (Formatted.put_value L x) os))
                ltac:(cbn [List.length]; lia)) as [r Hr].
    exists r. exact Hr.
Qed.

Lemma print_tuple_return (rest : list value) :
  forall (done : list value) (os : Formatted.stream L),
    exists r,
      Formatted.print_tuple L (done ++ rest)
        (seq (List.length done) (List.length rest)) os
      = Formatted.Printed r.
Proof.
  induction rest as [|x rest IH]; intros done os.
  - cbn [List.length seq Formatted.print_tuple]. eauto.
  - cbn [List.length seq Formatted.print_tuple].
    rewrite nth_error_app2, Nat.sub_diag by lia. cbn [nth_error].
    replace (done ++ x :: rest)%list with ((done ++ [x]) ++ rest)%list
      by (now rewrite <- app_assoc).
    replace (S (List.length done)) with (List.length (done ++ [x]))
      by (rewrite length_app; cbn; lia).
    apply IH.
Qed.

(** A call that compiles and is not on an empty sequence returns, whatever
    the library writes. *)
Lemma print_ip_returns (a : argument) (os : Formatted.stream L) :
  runs a -> exists r, Formatted.print_ip L a os = Formatted.Printed r.
Proof.
  destruct a as [[T v | s] | V c | V c | t]; cbn [runs]; intros Hr.
  - change (exists r, Formatted.print_ip_integral L T v os = Formatted.Printed r).
    unfold Formatted.print_ip_integral.
    destruct (make_unsigned_defined T Hr) as [uT ->].
    destruct (sizeof T =? 1)%nat; eauto.
  - change (exists r, Formatted.print_ip_string L s os = Formatted.Printed r).
    unfold Formatted.print_ip_string. eauto.
  - change (exists r, Formatted.print_ip_container L c os = Formatted.Printed r).
    unfold Formatted.print_ip_container.
    destruct (end_post_decrement value c Hr) as [moved ->].
    cbn [begin before after].
    destruct (elements_return c c [] os eq_refl) as [r ->].
    destruct (exists_last Hr) as (init & last & ->).
    rewrite back_last. eauto.
  - change (exists r, Formatted.print_ip_container L c os = Formatted.Printed r).
    unfold Formatted.print_ip_container.
    destruct (end_post_decrement value c Hr) as [moved ->].
    cbn [begin before after].
    destruct (elements_return c c [] os eq_refl) as [r ->].
    destruct (exists_last Hr) as (init & last & ->).
    rewrite back_last. eauto.
  - change (exists r, Formatted.print_ip_tuple L t os = Formatted.Printed r).
    destruct Hr as [Hne Hh]. unfold Formatted.print_ip_tuple.
    replace (is_same_type elem_type_eq_dec (map type_of_value t))
      with (Some true).
    + exact (print_tuple_return t [] os).
    + symmetry. apply is_same_type_true. split.
      * destruct t; [contradiction | discriminate].
      * now apply homogeneous_all_same.
Qed.

(** *** A format state that writes plain text and stays *)

Variable plain : Formatted.fmt L.
Hypothesis plain_integral :
  forall T v, Formatted.put_integral L T v plain = (integral_text T v, plain).
Hypothesis plain_string :
  forall s, Formatted.put_string L s plain = (s, plain).
Hypothesis plain_endl : Formatted.put_endl L plain = (newline, plain).

Lemma insert_integral_plain (T : integral) (v : Z) (text : string) :
  Formatted.insert (Formatted.put_integral L T v) (Formatted.Stream text plain)
  = Formatted.Stream (insert_integral T v text) plain.
Proof.
  unfold Formatted.insert. cbn [Formatted.state Formatted.written].
  now rewrite plain_integral.
Qed.

Lemma insert_string_plain (s text : string) :
  Formatted.insert (Formatted.put_string L s) (Formatted.Stream text plain)
  = Formatted.Stream (insert_string s text) plain.
Proof.
  unfold Formatted.insert. cbn [Formatted.state Formatted.written].
  now rewrite plain_string.
Qed.

Lemma insert_endl_plain (text : string) :
  Formatted.insert (Formatted.put_endl L) (Formatted.Stream text plain)
  = Formatted.Stream (endl text) plain.
Proof.
  unfold Formatted.insert. cbn [Formatted.state Formatted.written].
  now rewrite plain_endl.
Qed.

Lemma insert_value_plain (x : value) (text : string) :
  Formatted.insert (Formatted.put_value L x) (Formatted.Stream text plain)
  = Formatted.Stream (insert_value x text) plain.
Proof.
  destruct x; [apply insert_integral_plain | apply insert_string_plain].
Qed.

Lemma high_bytes_plain (i : nat) (u : Z) :
  forall text : string,
    Formatted.print_ip_high_bytes L i u (Formatted.Stream text plain)
    = Formatted.Stream (PrintIp.print_ip_high_bytes i u text) plain.
Proof.
  induction i as [|i IH]; intros text; [reflexivity|].
  cbn [Formatted.print_ip_high_bytes PrintIp.print_ip_high_bytes].
  now rewrite insert_integral_plain, insert_string_plain, IH.
Qed.

Lemma elements_plain (back_it : iterator value) :
  forall (rest seen : list value) (text : string),
    Formatted.print_ip_elements L seen rest back_it
      (Formatted.Stream text plain)
    = Formatted.with_state plain
        (PrintIp.print_ip_elements insert_value seen rest back_it text).
Proof.
  induction rest as [|x rest IH]; intros seen text;
    cbn [Formatted.print_ip_elements PrintIp.print_ip_elements];
    destruct (iterator_neq (Iterator seen _) back_it); try reflexivity.
  now rewrite insert_value_plain, insert_string_plain, IH.
Qed.

Lemma print_tuple_plain (t : list value) :
  forall (indices : list nat) (text : string),
    Formatted.print_tuple L t indices (Formatted.Stream text plain)
    = Formatted.with_state plain (PrintIp.print_tuple t indices text).
Proof.
  induction indices as [|index indices IH]; intros text;
    cbn [Formatted.print_tuple PrintIp.print_tuple].
  - cbn [Formatted.with_state]. now rewrite insert_endl_plain.
  - destruct (nth_error t index); [|reflexivity].
    now rewrite insert_string_plain, insert_value_plain, IH.
Qed.

(** From such a state the program on the stream is the program on the text,
    and the state stays. *)
Lemma print_ip_plain (a : argument) (text : string) :
  Formatted.print_ip L a (Formatted.Stream text plain)
  = Formatted.with_state plain (PrintIp.print_ip a text).
Proof.
  destruct a as [[T v | s] | V c | V c | t].
  - change (Formatted.print_ip_integral L T v (Formatted.Stream text plain)
            = Formatted.with_state plain (PrintIp.print_ip_integral T v text)).
    unfold Formatted.print_ip_integral, PrintIp.print_ip_integral.
    destruct (make_unsigned T); [|reflexivity].
    destruct (sizeof T =? 1)%nat; cbn [Formatted.with_state];
      now rewrite ?high_bytes_plain, insert_integral_plain, insert_endl_plain.
  - change (Formatted.print_ip_string L s (Formatted.Stream text plain)
            = Formatted.with_state plain (PrintIp.print_ip_string s text)).
    unfold Formatted.print_ip_string, PrintIp.print_ip_string.
    cbn [Formatted.with_state].
    now rewrite insert_string_plain, insert_endl_plain.
  - change (Formatted.print_ip_container L c (Formatted.Stream text plain)
            = Formatted.with_state plain
                (PrintIp.print_ip_container insert_value c text)).
    unfold Formatted.print_ip_container, PrintIp.print_ip_container.
    destruct (post_decrement (end_ c)) as [[back_it moved]|]; [|reflexivity].
    rewrite elements_plain.
    destruct (PrintIp.print_ip_elements insert_value _ _ back_it text);
      cbn [Formatted.with_state]; try reflexivity.
    destruct (back c); [|reflexivity].
    cbn [Formatted.with_state].
    now rewrite insert_value_plain, insert_endl_plain.
  - change (Formatted.print_ip_container L c (Formatted.Stream text plain)
            = Formatted.with_state plain
                (PrintIp.print_ip_container insert_value c text)).
    unfold Formatted.print_ip_container, PrintIp.print_ip_container.
    destruct (post_decrement (end_ c)) as [[back_it moved]|]; [|reflexivity].
    rewrite elements_plain.
    destruct (PrintIp.print_ip_elements insert_value _ _ back_it text);
      cbn [Formatted.with_state]; try reflexivity.
    destruct (back c); [|reflexivity].
    cbn [Formatted.with_state].
    now rewrite insert_value_plain, insert_endl_plain.
  - change (Formatted.print_ip_tuple L t (Formatted.Stream text plain)
            = Formatted.with_state plain (PrintIp.print_ip_tuple t text)).
    unfold Formatted.print_ip_tuple, PrintIp.print_ip_tuple.
    destruct (is_same_type elem_type_eq_dec (map type_of_value t))
      as [[|]|]; try reflexivity.
    apply print_tuple_plain.
Qed.

End FormattedFacts.

(** With the base flag at [dec] the stream writes the plain texts. *)
Lemma based_text_dec (T : integral) (v : Z) :
  Formatted.based_text Formatted.Dec T v = integral_text T v.
Proof. destruct T; reflexivity. Qed.



